(** * AI Meeting Summarizer: the rule-based summariser and the summary store

    A shallow embedding of the server of the repository (the Hugging Face
    variant with its local fallback, and the record routes it shares with
    [server-groq.js]):

    - [generateSimpleSummary], the rule-based summariser,
    - [generateSummaryWithFreeAI], the two-tier orchestrator,
    - the routes [POST /api/summarize] and [PUT /api/summaries/:id] over a
      model of the Mongo collection.

    JavaScript strings are sequences of UTF-16 code units; they are modelled
    as lists of code units ([N]).  The built-ins fixed by ECMAScript
    ([split] on a character class, [trim], [includes], [join], [slice],
    stable [sort], own-property order of an object) are written out.  The one
    built-in that depends on the Unicode tables of the host,
    [String.prototype.toLowerCase], is a parameter of the development. *)

From Stdlib Require Import List NArith ZArith Bool Ascii String Lia.
From Stdlib Require Import DecimalString.
From Stdlib Require Import Permutation Sorted.
Import ListNotations.

(* ================================================================= *)
(** * JavaScript strings *)

Definition jsstring := list N.

(** An ASCII literal of the source as a list of code units. *)
Definition lit (s : string) : jsstring :=
  map N_of_ascii (list_ascii_of_string s).

(** [s.length] *)
Definition jslength (s : jsstring) : nat := List.length s.

(** [s === ''], the one falsy string. *)
Definition isEmpty (s : jsstring) : bool :=
  match s with [] => true | _ => false end.

(** [a === b] on strings. *)
Fixpoint streq (a b : jsstring) : bool :=
  match a, b with
  | [], [] => true
  | x :: a', y :: b' => N.eqb x y && streq a' b'
  | _, _ => false
  end.

Definition inRange (lo hi c : N) : bool := (N.leb lo c && N.leb c hi)%bool.

(** The class [\s] of a regular expression, which is also what [trim]
    strips: WhiteSpace and LineTerminator of ECMAScript. *)
Definition isSpace (c : N) : bool :=
  (inRange 9 13 c            (* TAB, LF, VT, FF, CR *)
   || N.eqb c 32             (* SPACE *)
   || N.eqb c 160            (* NO-BREAK SPACE *)
   || N.eqb c 5760           (* U+1680 *)
   || inRange 8192 8202 c    (* U+2000..U+200A *)
   || inRange 8232 8233 c    (* U+2028, U+2029 *)
   || N.eqb c 8239           (* U+202F *)
   || N.eqb c 8287           (* U+205F *)
   || N.eqb c 12288          (* U+3000 *)
   || N.eqb c 65279)%bool.   (* U+FEFF *)

(** The class [\w]: [A-Za-z0-9_]. *)
Definition isWordChar (c : N) : bool :=
  (inRange 48 57 c || inRange 65 90 c || N.eqb c 95 || inRange 97 122 c)%bool.

(** The class [[.!?]]. *)
Definition isTerminator (c : N) : bool :=
  (N.eqb c 46 || N.eqb c 33 || N.eqb c 63)%bool.

(** [s.split(/[C]+/)] for a character class [C]: the pieces between the
    maximal runs of class characters.  A run at either end leaves an empty
    piece there, and a string without any run is returned whole (so the
    empty string gives one empty piece).  [inRun] tells that the previous
    character belonged to a run. *)
Fixpoint splitRuns (C : N -> bool) (inRun : bool) (s : jsstring)
  : list jsstring :=
  match s with
  | [] => [[]]
  | c :: s' =>
      if C c then
        if inRun then splitRuns C true s' else [] :: splitRuns C true s'
      else
        match splitRuns C false s' with
        | piece :: rest => (c :: piece) :: rest
        | [] => [[c]]
        end
  end.

Definition split (C : N -> bool) (s : jsstring) : list jsstring :=
  splitRuns C false s.

Fixpoint trimStart (s : jsstring) : jsstring :=
  match s with
  | [] => []
  | c :: s' => if isSpace c then trimStart s' else s
  end.

Definition trimEnd (s : jsstring) : jsstring := rev (trimStart (rev s)).

(** [s.trim()] *)
Definition trim (s : jsstring) : jsstring := trimEnd (trimStart s).

Fixpoint startsWith (s k : jsstring) {struct k} : bool :=
  match k, s with
  | [], _ => true
  | x :: k', y :: s' => N.eqb x y && startsWith s' k'
  | _ :: _, [] => false
  end.

(** [s.includes(k)]: [k] occurs in [s] as a contiguous run of code units. *)
Fixpoint includes (s k : jsstring) : bool :=
  startsWith s k ||
  match s with
  | [] => false
  | _ :: s' => includes s' k
  end.

(** [parts.join(sep)] *)
Fixpoint join (sep : jsstring) (parts : list jsstring) : jsstring :=
  match parts with
  | [] => []
  | [p] => p
  | p :: rest => p ++ sep ++ join sep rest
  end.

(** [word.replace(/[^\w]/g, '')] *)
Definition stripNonWord (w : jsstring) : jsstring := filter isWordChar w.

(** A lower-casing that is exact on Basic Latin: [A-Z] go to [a-z], every
    other code unit stays.  It is the instance at which the scenarios of
    the specification, all written in ASCII, are evaluated. *)
Definition lowerUnit (c : N) : N :=
  if inRange 65 90 c then (c + 32)%N else c.

Definition asciiLower (s : jsstring) : jsstring := map lowerUnit s.

Definition isAscii (s : jsstring) : bool := forallb (fun c => N.ltb c 128) s.

(** What every host's [toLowerCase] does on ASCII text. *)
Definition lowersAscii (toLowerCase : jsstring -> jsstring) : Prop :=
  forall s, isAscii s = true -> toLowerCase s = asciiLower s.

(* ================================================================= *)
(** * The values and the object behind [wordCount] *)

(** The values that can turn up when [wordCount] is read and written.
    [JObject text] stands for an object or a function reached through the
    prototype chain; [text] is what it converts to as a string. *)
Inductive jsval : Type :=
| JUndefined
| JNum (n : N)
| JStr (s : jsstring)
| JObject (text : jsstring).

(** An ordinary object: its own properties in the order of their creation.
    [wordCount] starts as [{}], whose prototype is [Object.prototype]. *)
Definition jsobject := list (jsstring * jsval).

Definition nativeFunction (name : string) : jsstring :=
  lit "function " ++ lit name ++ lit "() { [native code] }".

(** The properties of [Object.prototype] that a read of a missing own
    property finds, with the string each value converts to.  [__proto__] is
    the one accessor among them; its getter yields [Object.prototype].
    Among lower-cased words only [constructor] and [__proto__] can name
    one; the table is complete so that nothing is assumed about the
    lower-casing. *)
Definition Object_prototype : list (jsstring * jsstring) :=
  [ (lit "constructor", nativeFunction "Object");
    (lit "__defineGetter__", nativeFunction "__defineGetter__");
    (lit "__defineSetter__", nativeFunction "__defineSetter__");
    (lit "hasOwnProperty", nativeFunction "hasOwnProperty");
    (lit "__lookupGetter__", nativeFunction "__lookupGetter__");
    (lit "__lookupSetter__", nativeFunction "__lookupSetter__");
    (lit "isPrototypeOf", nativeFunction "isPrototypeOf");
    (lit "propertyIsEnumerable", nativeFunction "propertyIsEnumerable");
    (lit "toString", nativeFunction "toString");
    (lit "valueOf", nativeFunction "valueOf");
    (lit "__proto__", lit "[object Object]");
    (lit "toLocaleString", nativeFunction "toLocaleString") ].

Fixpoint assoc {V : Type} (l : list (jsstring * V)) (k : jsstring)
  : option V :=
  match l with
  | [] => None
  | (k', v) :: l' => if streq k' k then Some v else assoc l' k
  end.

(** [o[k]] read: the own property, else the inherited one, else
    [undefined]. *)
Definition Get (o : jsobject) (k : jsstring) : jsval :=
  match assoc o k with
  | Some v => v
  | None =>
      match assoc Object_prototype k with
      | Some text => JObject text
      | None => JUndefined
      end
  end.

Fixpoint putOwn (o : jsobject) (k : jsstring) (v : jsval) : jsobject :=
  match o with
  | [] => [(k, v)]
  | (k', v') :: o' =>
      if streq k' k then (k', v) :: o' else (k', v') :: putOwn o' k v
  end.

(** [o[k] = v] for a number or a string [v]: an existing own property is
    overwritten in place, a new one is created last; the inherited data
    properties are writable and get shadowed.  Assigning to [__proto__]
    runs the setter of [Object.prototype], which ignores a value that is
    neither an object nor [null]. *)
Definition Put (o : jsobject) (k : jsstring) (v : jsval) : jsobject :=
  if streq k (lit "__proto__") then o else putOwn o k v.

(** [(v || 0) + 1].  A count is a double; counts stay far below 2^53 (a
    string has fewer than 2^30 code units), where [+ 1] is exact. *)
Definition orZeroPlusOne (v : jsval) : jsval :=
  match v with
  | JUndefined => JNum 1
  | JNum n => JNum (n + 1)
  | JStr [] => JNum 1
  | JStr s => JStr (s ++ lit "1")
  | JObject text => JStr (text ++ lit "1")
  end.

(** [ToNumber] as the comparator of the sort needs it; [None] is NaN.  The
    strings stored in [wordCount] are a native-code text or
    [[object Object]] followed by 1s, none of them a numeric literal. *)
Definition toNumber (v : jsval) : option Z :=
  match v with
  | JNum n => Some (Z.of_N n)
  | _ => None
  end.

(** [b - a] *)
Definition minus (b a : jsval) : option Z :=
  match toNumber b, toNumber a with
  | Some x, Some y => Some (x - y)%Z
  | _, _ => None
  end.

Definition isDigit (c : N) : bool := inRange 48 57 c.

Definition digitsValue (s : jsstring) : N :=
  fold_left (fun acc c => (10 * acc + (c - 48))%N) s 0%N.

(** [ToString(n)] for an integer [n]: its decimal numeral. *)
Definition decimal (n : N) : jsstring :=
  lit (NilZero.string_of_uint (N.to_uint n)).

(** A property key is an array index when it is a canonical numeric string
    (the numeral that [ToString] gives back for its value) of an integer
    from 0 to 2^32 - 2. *)
Definition arrayIndex (k : jsstring) : option N :=
  let n := digitsValue k in
  if (forallb isDigit k && streq (decimal n) k && N.ltb n 4294967295)%bool
  then Some n
  else None.

Definition isNamed (e : jsstring * jsval) : bool :=
  match arrayIndex (fst e) with Some _ => false | None => true end.

Fixpoint indexedEntries (o : jsobject) : list (N * (jsstring * jsval)) :=
  match o with
  | [] => []
  | e :: o' =>
      match arrayIndex (fst e) with
      | Some i => (i, e) :: indexedEntries o'
      | None => indexedEntries o'
      end
  end.

Fixpoint insertIndexed (e : N * (jsstring * jsval))
    (l : list (N * (jsstring * jsval))) : list (N * (jsstring * jsval)) :=
  match l with
  | [] => [e]
  | e' :: l' =>
      if N.leb (fst e) (fst e') then e :: l else e' :: insertIndexed e l'
  end.

(** [Object.entries(o)]: the own properties in the order of
    OrdinaryOwnPropertyKeys, array indices first in ascending numeric order,
    then the other keys in the order of their creation. *)
Definition Object_entries (o : jsobject) : list (jsstring * jsval) :=
  map snd (fold_right insertIndexed [] (indexedEntries o))
  ++ filter isNamed o.

(** [Array.prototype.sort(comparefn)].  The sort is stable; a comparator
    result of NaN counts as +0.  With a consistent comparator every stable
    sort returns the list computed here, by insertion from the right.  (The
    comparator of [keywords] is consistent as long as the table holds
    numbers only; with a string in it, which takes an inherited name among
    the words, ECMAScript leaves the order to the implementation.) *)
Section ArraySort.
Variable A : Type.
Variable comparefn : A -> A -> option Z.

Definition sortCompare (x y : A) : Z :=
  match comparefn x y with
  | Some v => v
  | None => 0%Z
  end.

Fixpoint sortInsert (x : A) (l : list A) : list A :=
  match l with
  | [] => [x]
  | y :: l' =>
      if (0 <? sortCompare x y)%Z then y :: sortInsert x l' else x :: l
  end.

Definition Array_sort (l : list A) : list A := fold_right sortInsert [] l.
End ArraySort.

Arguments sortCompare {A} comparefn x y.
Arguments sortInsert {A} comparefn x l.
Arguments Array_sort {A} comparefn l.

(* ================================================================= *)
(** * The rule-based summariser *)

(** ["• "]: U+2022 and a space. *)
Definition bullet : jsstring := [8226%N; 32%N].

Definition newline : jsstring := [10%N].
Definition space : jsstring := [32%N].

Definition actionWords : list jsstring :=
  [lit "will"; lit "going to"; lit "plan to"; lit "need to"; lit "should";
   lit "must"].

(** [`• ${s.trim()}`] *)
Definition bulletLine (s : jsstring) : jsstring := bullet ++ trim s.

(** [text.split(/[.!?]+/).filter(s => s.trim().length > 10)] *)
Definition sentences (text : jsstring) : list jsstring :=
  filter (fun s => 10 <? jslength (trim s)) (split isTerminator text).

Section Summariser.

(** [String.prototype.toLowerCase] of the host. *)
Variable toLowerCase : jsstring -> jsstring.

(** [text.toLowerCase().split(/\s+/)] *)
Definition words (text : jsstring) : list jsstring :=
  split isSpace (toLowerCase text).

(** The body of [words.forEach(word => ...)]. *)
Definition countWord (wordCount : jsobject) (word : jsstring) : jsobject :=
  let cleanWord := stripNonWord word in
  if 3 <? jslength cleanWord
  then Put wordCount cleanWord (orZeroPlusOne (Get wordCount cleanWord))
  else wordCount.

Definition wordCount (text : jsstring) : jsobject :=
  fold_left countWord (words text) [].

(** [Object.entries(wordCount).sort(([,a], [,b]) => b - a)
      .slice(0, 10).map(([word]) => word)] *)
Definition keywords (text : jsstring) : list jsstring :=
  map fst
    (firstn 10
       (Array_sort (fun x y => minus (snd y) (snd x))
          (Object_entries (wordCount text)))).

Definition hasKeyword (kws : list jsstring) (sentence : jsstring) : bool :=
  existsb (fun keyword => includes (toLowerCase sentence) keyword) kws.

Definition keySentences (text : jsstring) : list jsstring :=
  firstn 5 (filter (hasKeyword (keywords text)) (sentences text)).

Definition hasActionWord (s : jsstring) : bool :=
  existsb (fun word => includes (toLowerCase s) word) actionWords.

Definition actionSentences (text : jsstring) : list jsstring :=
  filter hasActionWord (sentences text).

(** [customPrompt && customPrompt.toLowerCase().includes(k)]; an absent
    prompt and the empty prompt are falsy. *)
Definition promptIncludes (customPrompt : option jsstring) (k : jsstring)
  : bool :=
  match customPrompt with
  | None => false
  | Some p => negb (isEmpty p) && includes (toLowerCase p) k
  end.

(** The value of [summary] after the dispatch on the prompt. *)
Definition summary (text : jsstring) (customPrompt : option jsstring)
  : jsstring :=
  if promptIncludes customPrompt (lit "bullet") then
    join newline (map bulletLine (keySentences text))
  else if promptIncludes customPrompt (lit "action") then
    join newline (map bulletLine (actionSentences text))
  else
    join space (keySentences text).

(** [summary || 'Summary: ' + sentences.slice(0, 3).join(' ')] *)
Definition generateSimpleSummary (text : jsstring)
    (customPrompt : option jsstring) : jsstring :=
  let summary := summary text customPrompt in
  if isEmpty summary
  then lit "Summary: " ++ join space (firstn 3 (sentences text))
  else summary.

End Summariser.

(* ================================================================= *)
(** * Exceptions, the remote service and the orchestrator *)

(** What a rejected promise or a [throw] carries. *)
Inductive jserror : Type :=
| AxiosError (message : jsstring)   (* network failure, timeout, HTTP error *)
| ValidationError                   (* a required path of the schema is empty *)
| DuplicateKey                      (* the unique index on [id] *)
| MongoError.                       (* the driver cannot reach the database *)

Inductive outcome (A : Type) : Type :=
| Returns (a : A)
| Throws (error : jserror).

Arguments Returns {A} a.
Arguments Throws {A} error.

Definition bind {A B : Type} (m : outcome A) (k : A -> outcome B)
  : outcome B :=
  match m with
  | Returns a => k a
  | Throws e => Throws e
  end.

(** [try { body } catch (error) { handler }] *)
Definition tryCatch {A : Type} (body : outcome A)
    (handler : jserror -> outcome A) : outcome A :=
  match body with
  | Returns a => Returns a
  | Throws e => handler e
  end.

Notation "x <- m ;; k" := (bind m (fun x => k))
  (at level 61, m at next level, right associativity).

(** [process.env]: a variable is a string or is not set. *)
Record Env : Type := { HUGGINGFACE_API_KEY : option jsstring }.

(** What the orchestrator reads in a reply: [response.data[0].summary_text],
    or [None] when [data], [data[0]] or the field is missing. *)
Definition AxiosResponse := option jsstring.

(** [axios.post] to the inference API, given the [Authorization] header and
    the [inputs] of the request: the service is outside the program, and
    what it answers is an input of the model. *)
Definition Remote := jsstring -> jsstring -> outcome AxiosResponse.

(** [x || d] on an optional string. *)
Definition orDefault (x : option jsstring) (d : jsstring) : jsstring :=
  match x with
  | Some (c :: s) => c :: s
  | _ => d
  end.

(** The [Authorization] header and the [inputs] field of the request. *)
Definition authorization (key : jsstring) : jsstring := lit "Bearer " ++ key.

Definition requestInputs (customPrompt : option jsstring) (text : jsstring)
  : jsstring :=
  orDefault customPrompt (lit "Summarize this meeting transcript:")
  ++ newline ++ newline ++ text.

Section Orchestrator.

Variable toLowerCase : jsstring -> jsstring.
Variable env : Env.
Variable axios_post : Remote.

(** The [console.log] of the handler has no effect on the result and is
    left out. *)
Definition generateSummaryWithFreeAI (text : jsstring)
    (customPrompt : option jsstring) : outcome jsstring :=
  tryCatch
    (match HUGGINGFACE_API_KEY env with
     | Some (c :: key) =>
         response <- axios_post (authorization (c :: key))
                       (requestInputs customPrompt text) ;;
         match response with
         | Some (c' :: summary_text) => Returns (c' :: summary_text)
         | _ => Returns (generateSimpleSummary toLowerCase text customPrompt)
         end
     | _ => Returns (generateSimpleSummary toLowerCase text customPrompt)
     end)
    (fun error =>
       Returns (generateSimpleSummary toLowerCase text customPrompt)).

End Orchestrator.

(* ================================================================= *)
(** * The collection of summaries and the routes *)

Record SummaryRecord : Type := {
  id : jsstring;
  originalText : jsstring;
  customPrompt : option jsstring;
  generatedSummary : jsstring;
  editedSummary : option jsstring;
  createdAt : N
}.

(** The database: whether the driver reaches it, and the documents of the
    collection in their natural order. *)
Record Db : Type := {
  connected : bool;
  documents : list SummaryRecord
}.

Definition hasId (i : jsstring) (r : SummaryRecord) : bool := streq (id r) i.

(** [new Summary({...}).save()]: the schema requires [id], [originalText]
    and [generatedSummary] (a required string may not be empty), [id] is
    unique, and [createdAt] defaults to [Date.now]. *)
Definition save (db : Db) (now : N) (i text : jsstring)
    (prompt : option jsstring) (generated : jsstring) : outcome Db :=
  if (isEmpty i || isEmpty text || isEmpty generated)%bool then
    Throws ValidationError
  else if negb (connected db) then Throws MongoError
  else if existsb (hasId i) (documents db) then Throws DuplicateKey
  else
    Returns {| connected := connected db;
               documents := documents db ++
                 [ {| id := i; originalText := text; customPrompt := prompt;
                      generatedSummary := generated; editedSummary := None;
                      createdAt := now |} ] |}.

Definition setEditedSummary (e : jsstring) (r : SummaryRecord)
  : SummaryRecord :=
  {| id := id r; originalText := originalText r;
     customPrompt := customPrompt r; generatedSummary := generatedSummary r;
     editedSummary := Some e; createdAt := createdAt r |}.

Fixpoint updateFirst (i e : jsstring) (docs : list SummaryRecord)
  : option (SummaryRecord * list SummaryRecord) :=
  match docs with
  | [] => None
  | r :: docs' =>
      if hasId i r then
        Some (setEditedSummary e r, setEditedSummary e r :: docs')
      else
        match updateFirst i e docs' with
        | Some (r', docs'') => Some (r', r :: docs'')
        | None => None
        end
  end.

(** [Summary.findOneAndUpdate({ id }, { editedSummary }, { new: true })]:
    the first document with that [id] gets the field set and is returned;
    [null] when there is none. *)
Definition findOneAndUpdate (db : Db) (i e : jsstring)
  : outcome (option SummaryRecord * Db) :=
  if negb (connected db) then Throws MongoError
  else
    match updateFirst i e (documents db) with
    | Some (r, docs) =>
        Returns (Some r, {| connected := connected db; documents := docs |})
    | None => Returns (None, db)
    end.

Inductive Body : Type :=
| ErrorBody (error : jsstring) (details : option jserror)
| SummaryBody (id summary message : jsstring)
| MessageBody (message : jsstring).

Record Response : Type := { status : nat; body : Body }.

Section Routes.

Variable toLowerCase : jsstring -> jsstring.
Variable env : Env.
Variable axios_post : Remote.

(** [app.post('/api/summarize')], with the identifier [uuidv4()] returns
    and the clock as inputs. *)
Definition post_summarize (uuid : jsstring) (now : N) (db : Db)
    (text customPrompt : option jsstring) : Response * Db :=
  match text with
  | Some (c :: t) =>
      let text := c :: t in
      if jslength (trim text) =? 0 then
        ({| status := 400;
            body := ErrorBody (lit "Text is required") None |}, db)
      else
        match
          summary <- generateSummaryWithFreeAI toLowerCase env axios_post
                       text customPrompt ;;
          db' <- save db now uuid text customPrompt summary ;;
          Returns (summary, db')
        with
        | Returns (summary, db') =>
            ({| status := 200;
                body := SummaryBody uuid summary
                  (lit "Summary generated successfully (using free AI)") |},
             db')
        | Throws error =>
            ({| status := 500;
                body := ErrorBody (lit "Failed to generate summary")
                          (Some error) |}, db)
        end
  | _ =>
      ({| status := 400; body := ErrorBody (lit "Text is required") None |},
       db)
  end.

(** [app.put('/api/summaries/:id')] *)
Definition put_summaries (db : Db) (i : jsstring)
    (edited : option jsstring) : Response * Db :=
  match edited with
  | Some (c :: e) =>
      match findOneAndUpdate db i (c :: e) with
      | Returns (Some _, db') =>
          ({| status := 200;
              body := MessageBody (lit "Summary updated successfully") |},
           db')
      | Returns (None, db') =>
          ({| status := 404;
              body := ErrorBody (lit "Summary not found") None |}, db')
      | Throws _ =>
          ({| status := 500;
              body := ErrorBody (lit "Failed to update summary") None |}, db)
      end
  | _ =>
      ({| status := 400;
          body := ErrorBody (lit "Edited summary is required") None |}, db)
  end.

End Routes.

(* ================================================================= *)
(** * The routes that read the collection *)

(** What the routes below throw: an error of the database layer, a
    [TypeError] of the interpreter, a rejected call to the Groq service, a
    rejected [sendMail]. *)
Inductive failure : Type :=
| Stored (e : jserror)
| TypeError (message : jsstring)
| GroqError (message : jsstring)
| MailError (message : jsstring).

Inductive attempt (A : Type) : Type :=
| Done (a : A)
| Failed (f : failure).

Arguments Done {A} a.
Arguments Failed {A} f.

(** The JSON documents these routes answer with. *)
Inductive Json : Type :=
| JsonError (error : jsstring) (details : option failure)
| JsonMessage (message : jsstring)
| JsonSummary (id summary message : jsstring)
| JsonRecord (r : SummaryRecord)
| JsonRecords (l : list SummaryRecord).

Record Reply : Type := { code : nat; json : Json }.

(** [Summary.findOne({ id })] *)
Definition findOne (db : Db) (i : jsstring) : outcome (option SummaryRecord) :=
  if negb (connected db) then Throws MongoError
  else Returns (find (hasId i) (documents db)).

(** [app.get('/api/summaries/:id')] *)
Definition get_summary (db : Db) (i : jsstring) : Reply :=
  match findOne db i with
  | Returns (Some r) => {| code := 200; json := JsonRecord r |}
  | Returns None =>
      {| code := 404; json := JsonError (lit "Summary not found") None |}
  | Throws _ =>
      {| code := 500; json := JsonError (lit "Database error") None |}
  end.




(* ================================================================= *)
(** * The Groq server: [POST /api/summarize] *)

(** The part of a chat completion the route reads:
    [completion.choices[0]?.message?.content]. *)
Record Message : Type := { content : option jsstring }.
Record Choice : Type := { message : option Message }.
Record Completion : Type := { choices : list Choice }.

(** [groq.chat.completions.create], given the content of the user message
    (the system message, the model and the sampling parameters are
    constants): the service is outside the program. *)
Definition Groq := jsstring -> attempt Completion.

Definition groqUserContent (customPrompt : option jsstring)
    (text : jsstring) : jsstring :=
  orDefault customPrompt
    (lit "Please provide a comprehensive summary of this meeting transcript.")
  ++ newline ++ newline ++ lit "Meeting transcript:" ++ newline ++ text.

(** [completion.choices[0]?.message?.content || 'Unable to generate summary'] *)
Definition completionSummary (completion : Completion) : jsstring :=
  match choices completion with
  | choice :: _ =>
      match message choice with
      | Some m => orDefault (content m) (lit "Unable to generate summary")
      | None => lit "Unable to generate summary"
      end
  | [] => lit "Unable to generate summary"
  end.

Definition stored {A : Type} (m : outcome A) : attempt A :=
  match m with
  | Returns a => Done a
  | Throws e => Failed (Stored e)
  end.

(** [app.post('/api/summarize')] of [server-groq.js]. *)
Definition groq_summarize (groq_create : Groq) (uuid : jsstring) (now : N)
    (db : Db) (text customPrompt : option jsstring) : Reply * Db :=
  match text with
  | Some (c :: t) =>
      let text := c :: t in
      if jslength (trim text) =? 0 then
        ({| code := 400; json := JsonError (lit "Text is required") None |},
         db)
      else
        match groq_create (groqUserContent customPrompt text) with
        | Done completion =>
            let summary := completionSummary completion in
            match stored (save db now uuid text customPrompt summary) with
            | Done db' =>
                ({| code := 200;
                    json := JsonSummary uuid summary
                              (lit "Summary generated successfully") |}, db')
            | Failed f =>
                ({| code := 500;
                    json := JsonError (lit "Failed to generate summary")
                              (Some f) |}, db)
            end
        | Failed f =>
            ({| code := 500;
                json := JsonError (lit "Failed to generate summary")
                          (Some f) |}, db)
        end
  | _ =>
      ({| code := 400; json := JsonError (lit "Text is required") None |}, db)
  end.

(* ================================================================= *)
(** * [POST /api/send-email] *)

Record MailEnv : Type := {
  EMAIL_USER : option jsstring;
  EMAIL_PASS : option jsstring
}.

(** The argument of [transporter.sendMail]. *)
Record Mail : Type := {
  from : option jsstring;
  to : jsstring;
  subject : jsstring;
  html : jsstring
}.

Definition quote : jsstring := [34%N].

(** The template literal [emailContent]; [credit] is the sentence of its
    last paragraph, which differs between the two servers. *)
Definition emailContent (credit summary : jsstring) : jsstring :=
  newline ++ lit "      <h2>Meeting Summary</h2>"
  ++ newline ++ lit "      <p>A meeting summary has been shared with you:</p>"
  ++ newline ++ lit "      <hr>"
  ++ newline ++ lit "      <div style=" ++ quote ++ lit "white-space: pre-wrap;"
  ++ quote ++ lit ">" ++ summary ++ lit "</div>"
  ++ newline ++ lit "      <hr>"
  ++ newline ++ lit "      <p>" ++ credit ++ lit "</p>"
  ++ newline ++ lit "    ".

Definition freeAiCredit : jsstring :=
  lit "This summary was generated using AI Meeting Summarizer (Free AI).".

Definition groqCredit : jsstring :=
  lit "This summary was generated using AI Meeting Summarizer.".

(** The messages of the sends that were rejected. *)
Fixpoint rejections (sendMail : Mail -> option jsstring) (mails : list Mail)
  : list jsstring :=
  match mails with
  | [] => []
  | m :: mails' =>
      match sendMail m with
      | Some message => message :: rejections sendMail mails'
      | None => rejections sendMail mails'
      end
  end.

Section SendEmail.

Variable env : MailEnv.

(** [transporter.sendMail]: [None] when the mail is accepted, the message
    of the error when the promise is rejected. *)
Variable sendMail : Mail -> option jsstring.

(** [Promise.all] rejects with the rejection that comes first in time:
    [race] picks it among the rejections. *)
Variable race : list jsstring -> jsstring.

(** [app.post('/api/send-email')] of the server with the local fallback,
    with the mails handed to the transport.  [recipientEmails] is [None]
    when the field is missing or is not an array. *)
Definition send_email (recipientEmails : option (list jsstring))
    (subject summary : option jsstring) : Reply * list Mail :=
  match recipientEmails with
  | Some (first :: others) =>
      match summary with
      | Some (c :: s) =>
          let emailSubject :=
            orDefault subject (lit "Meeting Summary Shared with You") in
          let emailContent := emailContent freeAiCredit (c :: s) in
          let mails :=
            map (fun email =>
                   {| from := EMAIL_USER env; to := email;
                      subject := emailSubject; html := emailContent |})
              (first :: others) in
          match rejections sendMail mails with
          | [] =>
              ({| code := 200;
                  json := JsonMessage (lit "Emails sent successfully") |},
               mails)
          | rejected =>
              ({| code := 500;
                  json := JsonError (lit "Failed to send email")
                            (Some (MailError (race rejected))) |}, mails)
          end
      | _ =>
          ({| code := 400;
              json := JsonError (lit "Summary content is required") None |},
           [])
      end
  | _ =>
      ({| code := 400;
          json := JsonError (lit "Recipient emails are required") None |},
       [])
  end.

End SendEmail.


(* ================================================================= *)
(** * The client: the handlers of [App] *)

Module Client.

(** The state of the component.  [summary] and [editedSummary] are set
    from a field of a reply and can be [undefined] ([None]); the other
    strings come from inputs of the page. *)
Record State : Type := {
  text : jsstring;
  customPrompt : jsstring;
  summary : option jsstring;
  editedSummary : option jsstring;
  loading : bool;
  error : jsstring;
  success : jsstring;
  emailInput : jsstring;
  recipientEmails : list jsstring;
  emailSubject : jsstring;
  sendingEmail : bool
}.

(** The initial values given to [useState]. *)
Definition initial : State :=
  {| text := []; customPrompt := []; summary := Some [];
     editedSummary := Some []; loading := false; error := []; success := [];
     emailInput := []; recipientEmails := [];
     emailSubject := lit "Meeting Summary Shared with You";
     sendingEmail := false |}.

Definition setError (e : jsstring) (st : State) : State :=
  {| text := text st; customPrompt := customPrompt st; summary := summary st;
     editedSummary := editedSummary st; loading := loading st; error := e;
     success := success st; emailInput := emailInput st;
     recipientEmails := recipientEmails st; emailSubject := emailSubject st;
     sendingEmail := sendingEmail st |}.

Definition setSuccess (m : jsstring) (st : State) : State :=
  {| text := text st; customPrompt := customPrompt st; summary := summary st;
     editedSummary := editedSummary st; loading := loading st;
     error := error st; success := m; emailInput := emailInput st;
     recipientEmails := recipientEmails st; emailSubject := emailSubject st;
     sendingEmail := sendingEmail st |}.

Definition setSummary (s : option jsstring) (st : State) : State :=
  {| text := text st; customPrompt := customPrompt st; summary := s;
     editedSummary := editedSummary st; loading := loading st;
     error := error st; success := success st; emailInput := emailInput st;
     recipientEmails := recipientEmails st; emailSubject := emailSubject st;
     sendingEmail := sendingEmail st |}.

Definition setEditedSummary (s : option jsstring) (st : State) : State :=
  {| text := text st; customPrompt := customPrompt st; summary := summary st;
     editedSummary := s; loading := loading st; error := error st;
     success := success st; emailInput := emailInput st;
     recipientEmails := recipientEmails st; emailSubject := emailSubject st;
     sendingEmail := sendingEmail st |}.

Definition setLoading (b : bool) (st : State) : State :=
  {| text := text st; customPrompt := customPrompt st; summary := summary st;
     editedSummary := editedSummary st; loading := b; error := error st;
     success := success st; emailInput := emailInput st;
     recipientEmails := recipientEmails st; emailSubject := emailSubject st;
     sendingEmail := sendingEmail st |}.

Definition setEmailInput (s : jsstring) (st : State) : State :=
  {| text := text st; customPrompt := customPrompt st; summary := summary st;
     editedSummary := editedSummary st; loading := loading st;
     error := error st; success := success st; emailInput := s;
     recipientEmails := recipientEmails st; emailSubject := emailSubject st;
     sendingEmail := sendingEmail st |}.

Definition setRecipientEmails (l : list jsstring) (st : State) : State :=
  {| text := text st; customPrompt := customPrompt st; summary := summary st;
     editedSummary := editedSummary st; loading := loading st;
     error := error st; success := success st; emailInput := emailInput st;
     recipientEmails := l; emailSubject := emailSubject st;
     sendingEmail := sendingEmail st |}.

Definition setEmailSubject (s : jsstring) (st : State) : State :=
  {| text := text st; customPrompt := customPrompt st; summary := summary st;
     editedSummary := editedSummary st; loading := loading st;
     error := error st; success := success st; emailInput := emailInput st;
     recipientEmails := recipientEmails st; emailSubject := s;
     sendingEmail := sendingEmail st |}.

Definition setSendingEmail (b : bool) (st : State) : State :=
  {| text := text st; customPrompt := customPrompt st; summary := summary st;
     editedSummary := editedSummary st; loading := loading st;
     error := error st; success := success st; emailInput := emailInput st;
     recipientEmails := recipientEmails st; emailSubject := emailSubject st;
     sendingEmail := b |}.

(** [recipientEmails.includes(email)] *)
Definition listIncludes (l : list jsstring) (email : jsstring) : bool :=
  existsb (streq email) l.

Definition handleAddEmail (st : State) : State :=
  let email := trim (emailInput st) in
  if (negb (isEmpty email)
      && negb (listIncludes (recipientEmails st) email))%bool
  then setEmailInput [] (setRecipientEmails (recipientEmails st ++ [email]) st)
  else st.

Definition handleRemoveEmail (emailToRemove : jsstring) (st : State)
  : State :=
  setRecipientEmails
    (filter (fun email => negb (streq email emailToRemove))
       (recipientEmails st))
    st.

(** [e.key === 'Enter'] *)
Definition handleKeyPress (key : jsstring) (st : State) : State :=
  if streq key (lit "Enter") then handleAddEmail st else st.

(** An axios call is fulfilled when the status is 2xx. *)
Definition fulfilled (status : nat) : bool :=
  ((200 <=? status) && (status <? 300))%bool.

(** [error.response?.data?.error || fallback] for a reply of the routes
    that answer with a [Body]; [None] is a call without a response. *)
Definition errorOf (reply : option Response) (fallback : jsstring)
  : jsstring :=
  match reply with
  | Some {| body := ErrorBody (c :: e) _ |} => c :: e
  | _ => fallback
  end.

(** The same for the routes that answer with a [Json]. *)
Definition errorOfReply (reply : option Reply) (fallback : jsstring)
  : jsstring :=
  match reply with
  | Some {| json := JsonError (c :: e) _ |} => c :: e
  | _ => fallback
  end.

(** [response.data.summary] *)
Definition dataSummary (b : Body) : option jsstring :=
  match b with
  | SummaryBody _ s _ => Some s
  | _ => None
  end.

(** [handleGenerateSummary], given what [POST /api/summarize] answers to
    the [text] and the [customPrompt] of a request ([None]: no answer). *)
Definition handleGenerateSummary
    (post : jsstring -> option jsstring -> option Response) (st : State)
  : State :=
  if isEmpty (trim (text st)) then
    setError (lit "Please enter some text to summarize") st
  else
    let st := setSuccess [] (setError [] st) in
    let reply :=
      post (trim (text st))
        (match trim (customPrompt st) with
         | [] => None
         | c :: p => Some (c :: p)
         end) in
    setLoading false
      match reply with
      | Some {| status := status; body := data |} =>
          if fulfilled status then
            setSuccess (lit "Summary generated successfully!")
              (setEditedSummary (dataSummary data)
                 (setSummary (dataSummary data) st))
          else setError (errorOf reply (lit "Failed to generate summary")) st
      | None => setError (errorOf reply (lit "Failed to generate summary")) st
      end.

(** [handleSaveEdits], given what [PUT /api/summaries/:id] answers to an id
    and an [editedSummary].  [summary] holds a string, which has no [id]:
    the template literal of the address renders [undefined].  Reading
    [trim] or [id] of [undefined] throws; before the [try] that leaves the
    state as it is. *)
Definition handleSaveEdits
    (put : jsstring -> jsstring -> option Response) (st : State) : State :=
  match editedSummary st with
  | None => st
  | Some edited =>
      if isEmpty (trim edited) then
        setError (lit "Please enter a summary to save") st
      else
        let st := setSuccess [] (setError [] st) in
        match summary st with
        | None => setError (lit "Failed to update summary") st
        | Some _ =>
            let reply := put (lit "undefined") (trim edited) in
            match reply with
            | Some {| status := status |} =>
                if fulfilled status then
                  setSuccess (lit "Summary updated successfully!") st
                else
                  setError (errorOf reply (lit "Failed to update summary")) st
            | None =>
                setError (errorOf reply (lit "Failed to update summary")) st
            end
        end
  end.

(** [handleSendEmail], given what [POST /api/send-email] answers to the
    recipients, the subject and the summary of a request. *)
Definition handleSendEmail
    (post : list jsstring -> jsstring -> jsstring -> option Reply)
    (st : State) : State :=
  if List.length (recipientEmails st) =? 0 then
    setError (lit "Please add at least one recipient email") st
  else
    match editedSummary st with
    | None => st
    | Some edited =>
        if isEmpty (trim edited) then
          setError (lit "Please generate and edit a summary before sending")
            st
        else
          let st := setSuccess [] (setError [] st) in
          let reply :=
            post (recipientEmails st) (emailSubject st) (trim edited) in
          setSendingEmail false
            match reply with
            | Some {| code := status |} =>
                if fulfilled status then
                  setEmailSubject (lit "Meeting Summary Shared with You")
                    (setRecipientEmails []
                       (setSuccess (lit "Emails sent successfully!") st))
                else
                  setError (errorOfReply reply (lit "Failed to send emails"))
                    st
            | None =>
                setError (errorOfReply reply (lit "Failed to send emails")) st
            end
  end.

End Client.

(* ================================================================= *)
(** * Notions used to state the properties *)

(** [k] occurs in [s] as a substring. *)
Definition Occurs (k s : jsstring) : Prop :=
  exists pre post, s = pre ++ k ++ post.

(** [l1] is [l2] with some elements left out, the order kept. *)
Inductive Subseq {A : Type} : list A -> list A -> Prop :=
| Subseq_nil : Subseq [] []
| Subseq_skip x l1 l2 : Subseq l1 l2 -> Subseq l1 (x :: l2)
| Subseq_keep x l1 l2 : Subseq l1 l2 -> Subseq (x :: l1) (x :: l2).

(** The lines of a text: the pieces between its line feeds. *)
Fixpoint lines (s : jsstring) : list jsstring :=
  match s with
  | [] => [[]]
  | c :: s' =>
      if N.eqb c 10 then [] :: lines s'
      else
        match lines s' with
        | piece :: rest => (c :: piece) :: rest
        | [] => [[c]]
        end
  end.

(** The fragments of the transcript before the length filter. *)
Definition rawSentences (text : jsstring) : list jsstring :=
  split isTerminator text.

(** The text the fallback of [generateSimpleSummary] produces. *)
Definition fallbackText (text : jsstring) : jsstring :=
  lit "Summary: " ++ join space (firstn 3 (sentences text)).

(** The cleaned words that enter the frequency table, in the order of the
    text: lower-cased, split at white space, non-word characters stripped,
    more than 3 code units left. *)
Definition cleanWords (toLowerCase : jsstring -> jsstring) (text : jsstring)
  : list jsstring :=
  filter (fun w => 3 <? jslength w)
    (map stripNonWord (words toLowerCase text)).

Definition occurrences (w : jsstring) (l : list jsstring) : nat :=
  List.length (filter (streq w) l).

(** The position of the first occurrence of [w] in [l] (the length of [l]
    when there is none). *)
Fixpoint firstPos (w : jsstring) (l : list jsstring) : nat :=
  match l with
  | [] => 0
  | x :: l' => if streq x w then 0 else S (firstPos w l')
  end.

(** [k] names a property that every object inherits. *)
Definition inherits (k : jsstring) : bool :=
  match assoc Object_prototype k with Some _ => true | None => false end.

(** Tie-break by first occurrence in the text. *)
Definition firstOccurrenceBefore (cw : list jsstring) (a b : jsstring)
  : Prop :=
  firstPos a cw < firstPos b cw.

(** Tie-break by the key order of an object: array indices first, by value,
    then the other words by first occurrence. *)
Definition keyBefore (cw : list jsstring) (a b : jsstring) : Prop :=
  match arrayIndex a, arrayIndex b with
  | Some i, Some j => (i < j)%N
  | Some _, None => True
  | None, Some _ => False
  | None, None => firstPos a cw < firstPos b cw
  end.

(** [a] ranks before [b]: it is more frequent, or as frequent and first in
    the tie-break. *)
Definition rankedBefore (tie : jsstring -> jsstring -> Prop)
    (cw : list jsstring) (a b : jsstring) : Prop :=
  occurrences b cw < occurrences a cw \/
  (occurrences a cw = occurrences b cw /\ tie a b).

(** [ks] is the top 10 of the distinct words of [cw], ranked by descending
    frequency with ties broken by [tie]. *)
Definition TopTen (tie : jsstring -> jsstring -> Prop)
    (cw ks : list jsstring) : Prop :=
  exists ranking,
    ks = firstn 10 ranking /\
    NoDup ranking /\
    (forall w, In w ranking <-> In w cw) /\
    StronglySorted (rankedBefore tie cw) ranking.

(** The remote tier yields nothing for this request: no credential, a
    rejected call, or a reply without a usable [summary_text]. *)
Definition remoteUnavailable (env : Env) (axios_post : Remote)
    (text : jsstring) (customPrompt : option jsstring) : Prop :=
  match HUGGINGFACE_API_KEY env with
  | Some (c :: key) =>
      match axios_post (authorization (c :: key))
              (requestInputs customPrompt text) with
      | Throws _ => True
      | Returns None => True
      | Returns (Some []) => True
      | Returns (Some (_ :: _)) => False
      end
  | _ => True
  end.

(** Two records agree on every field but [editedSummary]. *)
Definition sameFrame (r r' : SummaryRecord) : Prop :=
  id r' = id r /\ originalText r' = originalText r /\
  customPrompt r' = customPrompt r /\
  generatedSummary r' = generatedSummary r /\
  createdAt r' = createdAt r.

(** A collection with one record, for the examples. *)
Definition sampleRecord : SummaryRecord :=
  {| id := lit "a1"; originalText := lit "Some transcript.";
     customPrompt := None; generatedSummary := lit "Summary: ";
     editedSummary := None; createdAt := 1700000000000 |}.

Definition sampleDb : Db :=
  {| connected := true; documents := [sampleRecord] |}.

(** The transcript of the scenario of the specification. *)
Definition scenarioTranscript : jsstring :=
  lit "This is a test. We will finish the report. We should call the client.".

Definition isAsciiPrompt (customPrompt : option jsstring) : bool :=
  match customPrompt with
  | None => true
  | Some p => isAscii p
  end.

(** A transcript with [n] action sentences. *)
Fixpoint actionTranscript (n : nat) : jsstring :=
  match n with
  | 0 => []
  | S n' => lit "we will go now." ++ actionTranscript n'
  end.

(** The distinct words of a list, in the order of their first
    occurrence. *)
Definition distinct (l : list jsstring) : list jsstring :=
  fold_left (fun acc w => if existsb (streq w) acc then acc else acc ++ [w])
    l [].

(** The frequency table of a word list: each distinct word with the number
    of its occurrences, in the order of first occurrence. *)
Definition frequencyTable (l : list jsstring) : jsobject :=
  map (fun k => (k, JNum (N.of_nat (occurrences k l)))) (distinct l).

(** Counting one cleaned word: the assignment in the body of the loop. *)
Definition countClean (wordCount : jsobject) (cleanWord : jsstring)
  : jsobject :=
  Put wordCount cleanWord (orZeroPlusOne (Get wordCount cleanWord)).

(** The collection the routes keep: the identifiers are distinct, and no
    record has an empty [id], [originalText] or [generatedSummary]. *)
Definition wellFormed (db : Db) : Prop :=
  NoDup (map id (documents db)) /\
  Forall (fun r => id r <> [] /\ originalText r <> [] /\
                   generatedSummary r <> [])
    (documents db).

(** The list of recipients of the page: no address twice, every address
    trimmed and not empty. *)
Definition recipientsWellFormed (l : list jsstring) : Prop :=
  NoDup l /\ Forall (fun email => email <> [] /\ trim email = email) l.

(** No code unit of [s] ends a sentence. *)
Definition noTerminator (s : jsstring) : bool :=
  forallb (fun c => negb (isTerminator c)) s.

(* ================================================================= *)
(** * Strings: basic facts *)

Lemma streq_eq (a b : jsstring) : streq a b = true <-> a = b.
Proof.
  revert b. induction a as [|x a IH]; intros [|y b]; simpl;
    try (split; [discriminate | discriminate]); try tauto.
  rewrite andb_true_iff, N.eqb_eq, IH.
  split; [intros [-> ->]; reflexivity | intros H; injection H; auto].
Qed.

Lemma streq_refl (a : jsstring) : streq a a = true.
Proof. apply streq_eq. reflexivity. Qed.

Lemma streq_neq (a b : jsstring) : streq a b = false <-> a <> b.
Proof.
  rewrite <- streq_eq. destruct (streq a b); split; congruence.
Qed.

Lemma streq_sym (a b : jsstring) : streq a b = streq b a.
Proof.
  destruct (streq a b) eqn:E.
  - apply streq_eq in E. subst. symmetry. apply streq_refl.
  - destruct (streq b a) eqn:E'; [|reflexivity].
    apply streq_eq in E'. subst. rewrite streq_refl in E. discriminate.
Qed.

Lemma isEmpty_true (s : jsstring) : isEmpty s = true <-> s = [].
Proof. destruct s; simpl; split; congruence. Qed.

Lemma isEmpty_false (s : jsstring) : isEmpty s = false <-> s <> [].
Proof. destruct s; simpl; split; congruence. Qed.

Lemma startsWith_prefix (s k : jsstring) :
  startsWith s k = true <-> exists post, s = k ++ post.
Proof.
  revert s. induction k as [|x k IH]; intros s; simpl.
  - split; [intros _; exists s; reflexivity | reflexivity].
  - destruct s as [|y s].
    + split; [discriminate | intros [post H]; discriminate].
    + rewrite andb_true_iff, N.eqb_eq, IH. split.
      * intros [-> [post ->]]. exists post. reflexivity.
      * intros [post H]. injection H as -> ->. split; [reflexivity|].
        exists post. reflexivity.
Qed.

(** [includes] decides [Occurs]. *)
Lemma includes_Occurs (s k : jsstring) :
  includes s k = true <-> Occurs k s.
Proof.
  unfold Occurs. induction s as [|c s IH].
  - simpl. rewrite orb_false_r, startsWith_prefix. split.
    + intros [post H]. exists [], post. exact H.
    + intros [pre [post H]]. destruct pre; simpl in H.
      * exists post. exact H.
      * discriminate.
  - simpl. rewrite orb_true_iff, startsWith_prefix, IH. split.
    + intros [[post H] | [pre [post H]]].
      * exists [], post. exact H.
      * exists (c :: pre), post. simpl. rewrite H. reflexivity.
    + intros [pre [post H]]. destruct pre as [|c' pre]; simpl in H.
      * left. exists post. exact H.
      * right. injection H as _ H. exists pre, post. exact H.
Qed.

Lemma Subseq_refl {A : Type} (l : list A) : Subseq l l.
Proof. induction l; constructor; assumption. Qed.

Lemma Subseq_filter {A : Type} (f : A -> bool) (l : list A) :
  Subseq (filter f l) l.
Proof.
  induction l as [|x l IH]; simpl; [constructor|].
  destruct (f x); constructor; assumption.
Qed.

Lemma Subseq_firstn {A : Type} (n : nat) (l : list A) :
  Subseq (firstn n l) l.
Proof.
  assert (Hnil : forall l' : list A, Subseq [] l')
    by (induction l'; constructor; assumption).
  revert n. induction l as [|x l IH]; intros [|n]; simpl; auto.
  apply Subseq_keep. apply IH.
Qed.

Lemma Subseq_trans {A : Type} (l1 l2 l3 : list A) :
  Subseq l1 l2 -> Subseq l2 l3 -> Subseq l1 l3.
Proof.
  intros H12 H23. revert l1 H12.
  induction H23 as [|x l2 l3 H IH|x l2 l3 H IH]; intros l1 H12.
  - exact H12.
  - constructor. apply IH. exact H12.
  - inversion H12; subst.
    + constructor. apply IH. assumption.
    + apply Subseq_keep. apply IH. assumption.
Qed.

Lemma trimStart_all_space (s : jsstring) :
  forallb isSpace s = true -> trimStart s = [].
Proof.
  induction s as [|c s IH]; simpl; [reflexivity|].
  intros H. apply andb_true_iff in H as [Hc Hs]. rewrite Hc. auto.
Qed.

Lemma trim_all_space (s : jsstring) : forallb isSpace s = true -> trim s = [].
Proof.
  intros H. unfold trim. rewrite (trimStart_all_space s H). reflexivity.
Qed.

Lemma trim_nil : trim [] = [].
Proof. reflexivity. Qed.

Lemma isTerminator_not_space (c : N) :
  isSpace c = true -> isTerminator c = false.
Proof.
  intros H. destruct (isTerminator c) eqn:E; [|reflexivity].
  unfold isTerminator in E.
  rewrite !orb_true_iff, !N.eqb_eq in E.
  destruct E as [[-> | ->] | ->]; vm_compute in H; discriminate.
Qed.

(** A string without any character of the class is one piece. *)
Lemma split_no_separator (C : N -> bool) (s : jsstring) :
  forallb (fun c => negb (C c)) s = true -> split C s = [s].
Proof.
  unfold split. induction s as [|c s IH]; simpl; [reflexivity|].
  intros H. apply andb_true_iff in H as [Hc Hs].
  apply negb_true_iff in Hc. rewrite Hc, (IH Hs). reflexivity.
Qed.

Lemma sentences_blank (text : jsstring) :
  forallb isSpace text = true -> sentences text = [].
Proof.
  intros H. unfold sentences. rewrite split_no_separator.
  - simpl. rewrite (trim_all_space text H). reflexivity.
  - rewrite forallb_forall in H |- *. intros c Hc.
    rewrite (isTerminator_not_space c (H c Hc)). reflexivity.
Qed.

Lemma sentence_long (text s : jsstring) :
  In s (sentences text) -> 10 < jslength (trim s).
Proof.
  unfold sentences. intros H. apply filter_In in H as [_ H].
  apply Nat.ltb_lt in H. exact H.
Qed.

Lemma sentence_not_empty (text s : jsstring) :
  In s (sentences text) -> s <> [].
Proof.
  intros H ->. apply sentence_long in H. simpl in H. lia.
Qed.

Lemma sentences_Subseq (text : jsstring) :
  Subseq (sentences text) (rawSentences text).
Proof. apply Subseq_filter. Qed.

Lemma join_nil (sep : jsstring) (parts : list jsstring) :
  (forall p, In p parts -> p <> []) ->
  join sep parts = [] -> parts = [].
Proof.
  intros Hne H. destruct parts as [|p rest]; [reflexivity|].
  exfalso. apply (Hne p (or_introl eq_refl)).
  destruct rest; simpl in H; [exact H|].
  apply app_eq_nil in H. tauto.
Qed.

Lemma bulletLine_not_empty (s : jsstring) : bulletLine s <> [].
Proof. unfold bulletLine, bullet. simpl. discriminate. Qed.

Lemma fallbackText_not_empty (text : jsstring) : fallbackText text <> [].
Proof. unfold fallbackText. simpl. discriminate. Qed.

Lemma firstn_eq_nil {A : Type} (n : nat) (l : list A) :
  0 < n -> firstn n l = [] -> l = [].
Proof.
  intros Hn H. destruct n; [lia|]. destruct l; [reflexivity|discriminate].
Qed.

(* ================================================================= *)
(** * The summariser: selection, dispatch and fallback *)

Section SummariserFacts.

Variable toLowerCase : jsstring -> jsstring.


(** The last line of the function: the rendered summary unless it is
    empty, the fallback text otherwise. *)
Lemma generateSimpleSummary_fallback text prompt :
  summary toLowerCase text prompt = [] ->
  generateSimpleSummary toLowerCase text prompt = fallbackText text.
Proof.
  intros H. unfold generateSimpleSummary. rewrite H. reflexivity.
Qed.

Lemma generateSimpleSummary_rendered text prompt :
  summary toLowerCase text prompt <> [] ->
  generateSimpleSummary toLowerCase text prompt
  = summary toLowerCase text prompt.
Proof.
  intros H. unfold generateSimpleSummary.
  destruct (summary toLowerCase text prompt);
    [congruence | reflexivity].
Qed.

Lemma generateSimpleSummary_not_empty text prompt :
  generateSimpleSummary toLowerCase text prompt <> [].
Proof.
  destruct (summary toLowerCase text prompt) eqn:E.
  - rewrite generateSimpleSummary_fallback by exact E.
    apply fallbackText_not_empty.
  - rewrite generateSimpleSummary_rendered; rewrite E; discriminate.
Qed.

Lemma keySentences_Subseq text :
  Subseq (keySentences toLowerCase text) (sentences text).
Proof.
  unfold keySentences.
  eapply Subseq_trans; [apply Subseq_firstn | apply Subseq_filter].
Qed.

Lemma Subseq_In {A : Type} (l1 l2 : list A) (x : A) :
  Subseq l1 l2 -> In x l1 -> In x l2.
Proof.
  induction 1; simpl; intros Hx; auto.
  destruct Hx; auto.
Qed.

Lemma keySentence_is_sentence text s :
  In s (keySentences toLowerCase text) -> In s (sentences text).
Proof. apply Subseq_In, keySentences_Subseq. Qed.

Lemma actionSentence_is_sentence text s :
  In s (actionSentences toLowerCase text) -> In s (sentences text).
Proof.
  unfold actionSentences. intros H.
  apply filter_In in H. tauto.
Qed.

Lemma join_bullets_nil (l : list jsstring) :
  join newline (map bulletLine l) = [] <-> l = [].
Proof.
  split.
  - intros H. apply join_nil in H.
    + destruct l; [reflexivity | discriminate].
    + intros p Hp. apply in_map_iff in Hp as [s [<- _]].
      apply bulletLine_not_empty.
  - intros ->. reflexivity.
Qed.

Lemma join_keySentences_nil text :
  join space (keySentences toLowerCase text) = [] <->
  keySentences toLowerCase text = [].
Proof.
  split.
  - apply join_nil. intros p Hp.
    apply (sentence_not_empty text), keySentence_is_sentence, Hp.
  - intros ->. reflexivity.
Qed.

(** When the rendered summary is empty, by mode. *)
Lemma summary_nil_iff text prompt :
  summary toLowerCase text prompt = [] <->
  if promptIncludes toLowerCase prompt (lit "bullet")
  then keySentences toLowerCase text = []
  else if promptIncludes toLowerCase prompt (lit "action")
  then actionSentences toLowerCase text = []
  else keySentences toLowerCase text = [].
Proof.
  unfold summary.
  destruct (promptIncludes toLowerCase prompt (lit "bullet")).
  - apply join_bullets_nil.
  - destruct (promptIncludes toLowerCase prompt (lit "action")).
    + apply join_bullets_nil.
    + apply join_keySentences_nil.
Qed.

Lemma no_sentences_no_summary text prompt :
  sentences text = [] -> summary toLowerCase text prompt = [].
Proof.
  intros H. apply summary_nil_iff.
  unfold keySentences, actionSentences. rewrite H.
  simpl.
  destruct (promptIncludes toLowerCase prompt (lit "bullet"));
    [reflexivity|].
  destruct (promptIncludes toLowerCase prompt (lit "action")); reflexivity.
Qed.

End SummariserFacts.

(* ================================================================= *)
(** * ASCII transcripts: any host lower-casing agrees with [asciiLower] *)

Lemma splitRuns_ascii (C : N -> bool) (inRun : bool) (s : jsstring) :
  isAscii s = true ->
  Forall (fun p => isAscii p = true) (splitRuns C inRun s).
Proof.
  revert inRun. induction s as [|c s IH]; intros inRun H; simpl.
  - repeat constructor.
  - simpl in H. apply andb_true_iff in H as [Hc Hs].
    destruct (C c).
    + destruct inRun; [apply IH; exact Hs|].
      constructor; [reflexivity | apply IH; exact Hs].
    + specialize (IH false Hs).
      destruct (splitRuns C false s) as [|piece rest].
      * repeat constructor. simpl. rewrite Hc. reflexivity.
      * inversion IH; subst. constructor; [|assumption].
        simpl. rewrite Hc. assumption.
Qed.

Lemma sentences_ascii (text s : jsstring) :
  isAscii text = true -> In s (sentences text) -> isAscii s = true.
Proof.
  intros H Hs. unfold sentences in Hs. apply filter_In in Hs as [Hs _].
  pose proof (splitRuns_ascii isTerminator false text H) as HF.
  rewrite Forall_forall in HF. apply HF. exact Hs.
Qed.

Section AsciiTranscripts.

Variable toLowerCase : jsstring -> jsstring.
Hypothesis toLowerCase_ascii : lowersAscii toLowerCase.

Lemma keywords_ascii text :
  isAscii text = true -> keywords toLowerCase text = keywords asciiLower text.
Proof.
  intros H. unfold keywords, wordCount, words.
  rewrite (toLowerCase_ascii text H). reflexivity.
Qed.

Lemma filter_sentences_ascii (f g : jsstring -> bool) text :
  isAscii text = true ->
  (forall s, isAscii s = true -> f s = g s) ->
  filter f (sentences text) = filter g (sentences text).
Proof.
  intros H Hfg. apply filter_ext_in. intros s Hs.
  apply Hfg. apply (sentences_ascii text); assumption.
Qed.

Lemma keySentences_ascii text :
  isAscii text = true ->
  keySentences toLowerCase text = keySentences asciiLower text.
Proof.
  intros H. unfold keySentences. f_equal.
  rewrite (keywords_ascii text H).
  apply filter_sentences_ascii; [exact H|].
  intros s Hs. unfold hasKeyword. rewrite (toLowerCase_ascii s Hs).
  reflexivity.
Qed.

Lemma actionSentences_ascii text :
  isAscii text = true ->
  actionSentences toLowerCase text = actionSentences asciiLower text.
Proof.
  intros H. unfold actionSentences.
  apply filter_sentences_ascii; [exact H|].
  intros s Hs. unfold hasActionWord. rewrite (toLowerCase_ascii s Hs).
  reflexivity.
Qed.

Lemma promptIncludes_ascii prompt k :
  isAsciiPrompt prompt = true ->
  promptIncludes toLowerCase prompt k = promptIncludes asciiLower prompt k.
Proof.
  destruct prompt as [p|]; simpl; [|reflexivity].
  intros H. rewrite (toLowerCase_ascii p H). reflexivity.
Qed.

Lemma generateSimpleSummary_ascii text prompt :
  isAscii text = true -> isAsciiPrompt prompt = true ->
  generateSimpleSummary toLowerCase text prompt
  = generateSimpleSummary asciiLower text prompt.
Proof.
  intros Ht Hp. unfold generateSimpleSummary, summary.
  rewrite !(promptIncludes_ascii prompt _ Hp), (keySentences_ascii text Ht),
    (actionSentences_ascii text Ht).
  reflexivity.
Qed.

End AsciiTranscripts.

Lemma asciiLower_lowersAscii : lowersAscii asciiLower.
Proof. intros s _. reflexivity. Qed.

(* ================================================================= *)
(** * The orchestrator *)

Section OrchestratorFacts.

Variable toLowerCase : jsstring -> jsstring.
Variable env : Env.
Variable axios_post : Remote.

(** Whatever the remote tier does, the orchestrator returns. *)
Lemma generateSummaryWithFreeAI_returns text prompt :
  exists s,
    generateSummaryWithFreeAI toLowerCase env axios_post text prompt
    = Returns s.
Proof.
  unfold generateSummaryWithFreeAI.
  destruct (HUGGINGFACE_API_KEY env) as [[|c key]|]; simpl; eauto.
  destruct (axios_post _ _) as [[[|c' s]|]|e]; simpl; eauto.
Qed.

Lemma generateSummaryWithFreeAI_local text prompt :
  remoteUnavailable env axios_post text prompt ->
  generateSummaryWithFreeAI toLowerCase env axios_post text prompt
  = Returns (generateSimpleSummary toLowerCase text prompt).
Proof.
  unfold remoteUnavailable, generateSummaryWithFreeAI.
  destruct (HUGGINGFACE_API_KEY env) as [[|c key]|]; simpl; auto.
  destruct (axios_post _ _) as [[[|c' s]|]|e]; simpl; auto.
  intros [].
Qed.

End OrchestratorFacts.

(* ================================================================= *)
(** * Properties of the fallback *)

(** C10.  [generateSimpleSummary] returns a non-empty string for every
    transcript and every prompt.  When no fragment passes the length filter
    the result is the bare prefix ["Summary: "]; that is the case for the
    empty transcript, for a transcript of white space, and for a transcript
    whose fragments all trim to 10 code units or fewer. *)
Theorem generateSimpleSummary_never_empty :
  forall (toLowerCase : jsstring -> jsstring) (text : jsstring)
         (customPrompt : option jsstring),
    generateSimpleSummary toLowerCase text customPrompt <> [] /\
    (sentences text = [] ->
     generateSimpleSummary toLowerCase text customPrompt = lit "Summary: ") /\
    generateSimpleSummary toLowerCase [] customPrompt = lit "Summary: " /\
    (forallb isSpace text = true -> sentences text = []) /\
    ((forall s, In s (rawSentences text) -> jslength (trim s) <= 10) ->
     sentences text = []).
Proof.
  intros toLowerCase text customPrompt.
  assert (Hnone : forall t, sentences t = [] ->
            generateSimpleSummary toLowerCase t customPrompt
            = lit "Summary: ").
  { intros t Ht.
    rewrite generateSimpleSummary_fallback
      by (apply no_sentences_no_summary; exact Ht).
    unfold fallbackText. rewrite Ht. reflexivity. }
  split; [apply generateSimpleSummary_not_empty|].
  split; [apply Hnone|].
  split; [apply Hnone; reflexivity|].
  split; [apply sentences_blank|].
  intros Hshort. unfold sentences.
  destruct (filter _ _) as [|s rest] eqn:E; [reflexivity|].
  exfalso.
  assert (Hs : In s (filter (fun s => 10 <? jslength (trim s))
                        (split isTerminator text)))
    by (rewrite E; left; reflexivity).
  apply filter_In in Hs as [Hin Hlen]. apply Nat.ltb_lt in Hlen.
  specialize (Hshort s Hin). lia.
Qed.

Lemma generateSimpleSummary_never_empty_witness :
  generateSimpleSummary asciiLower (lit "  Hi. Ok. Go.") (Some (lit "bullets"))
  = lit "Summary: ".
Proof.
  apply (proj1 (proj2 (generateSimpleSummary_never_empty asciiLower
                         (lit "  Hi. Ok. Go.") (Some (lit "bullets"))))).
  vm_compute. reflexivity.
Defined.

(** C7, as the specification words it, fails: for ["Hi. Ok. Go."] and no
    prompt (or the empty prompt) the rendered summary is empty and the
    result is the bare ["Summary: "], not the prefix followed by the three
    raw fragments. *)
Lemma fallback_raw_sentences_counterexample :
  summary asciiLower (lit "Hi. Ok. Go.") None = [] /\
  rawSentences (lit "Hi. Ok. Go.") = [lit "Hi"; lit " Ok"; lit " Go"; []] /\
  generateSimpleSummary asciiLower (lit "Hi. Ok. Go.") None
    = lit "Summary: " /\
  generateSimpleSummary asciiLower (lit "Hi. Ok. Go.") (Some [])
    = lit "Summary: " /\
  generateSimpleSummary asciiLower (lit "Hi. Ok. Go.") None
    <> lit "Summary: "
       ++ join space (firstn 3 (rawSentences (lit "Hi. Ok. Go."))) /\
  generateSimpleSummary asciiLower (lit "Hi. Ok. Go.") None
    <> lit "Summary: "
       ++ join space (map trim (firstn 3 (rawSentences (lit "Hi. Ok. Go.")))).
Proof.
  repeat split; try (vm_compute; reflexivity); vm_compute; discriminate.
Qed.

(** C7, amended.  When the rendered summary is empty the result is
    ["Summary: "] followed by the first 3 sentences that passed the length
    filter (fragments that trim to more than 10 code units, in transcript
    order), joined by a space.  For ["Hi. Ok. Go."] with no prompt or the
    empty prompt no fragment passes and the result is exactly
    ["Summary: "].  The result is never empty. *)
Theorem fallback_uses_filtered_sentences :
  forall (toLowerCase : jsstring -> jsstring) (text : jsstring)
         (customPrompt : option jsstring),
    (summary toLowerCase text customPrompt = [] ->
     generateSimpleSummary toLowerCase text customPrompt
     = lit "Summary: " ++ join space (firstn 3 (sentences text))) /\
    Subseq (sentences text) (rawSentences text) /\
    (forall s, In s (rawSentences text) ->
       (In s (sentences text) <-> 10 < jslength (trim s))) /\
    generateSimpleSummary toLowerCase (lit "Hi. Ok. Go.") None
      = lit "Summary: " /\
    generateSimpleSummary toLowerCase (lit "Hi. Ok. Go.") (Some [])
      = lit "Summary: " /\
    generateSimpleSummary toLowerCase text customPrompt <> [].
Proof.
  intros toLowerCase text customPrompt.
  assert (Hshort : forall p,
            generateSimpleSummary toLowerCase (lit "Hi. Ok. Go.") p
            = lit "Summary: ").
  { intros p. rewrite generateSimpleSummary_fallback.
    - vm_compute. reflexivity.
    - apply no_sentences_no_summary. vm_compute. reflexivity. }
  split; [apply generateSimpleSummary_fallback|].
  split; [apply sentences_Subseq|].
  split.
  { intros s Hs. unfold sentences. rewrite filter_In, Nat.ltb_lt.
    unfold rawSentences in Hs. tauto. }
  split; [apply Hshort|].
  split; [apply Hshort|].
  apply generateSimpleSummary_not_empty.
Qed.

Lemma fallback_uses_filtered_sentences_witness :
  generateSimpleSummary asciiLower (lit "a b c d e f g h. ok.") None
  = lit "Summary: a b c d e f g h".
Proof.
  rewrite (proj1 (fallback_uses_filtered_sentences asciiLower
                    (lit "a b c d e f g h. ok.") None)).
  - vm_compute. reflexivity.
  - vm_compute. reflexivity.
Defined.

(** C8, as the specification words it, fails: with a "bullet" prompt, and
    with an "action" prompt, a transcript without keywords still gets the
    first-3 fallback. *)
Lemma fallback_in_bullet_mode_counterexample :
  promptIncludes asciiLower (Some (lit "bullet points")) (lit "bullet")
    = true /\
  keySentences asciiLower (lit "a b c d e f g h.") = [] /\
  sentences (lit "a b c d e f g h.") = [lit "a b c d e f g h"] /\
  generateSimpleSummary asciiLower (lit "a b c d e f g h.")
    (Some (lit "bullet points"))
    = lit "Summary: "
      ++ join space (firstn 3 (sentences (lit "a b c d e f g h."))) /\
  promptIncludes asciiLower (Some (lit "action items")) (lit "bullet")
    = false /\
  promptIncludes asciiLower (Some (lit "action items")) (lit "action")
    = true /\
  generateSimpleSummary asciiLower (lit "a b c d e f g h.")
    (Some (lit "action items"))
    = lit "Summary: "
      ++ join space (firstn 3 (sentences (lit "a b c d e f g h."))).
Proof.
  repeat split; vm_compute; reflexivity.
Qed.

(** C8, amended.  The fallback to ["Summary: "] and the first 3 sentences
    applies in every mode, whenever the selection of that mode is empty:
    the keyword-based selection in the default and in the bullet mode, the
    action-marker selection in the action mode.  When the selection is not
    empty the result is its rendering and no fallback takes place. *)
Theorem fallback_in_every_mode :
  forall (toLowerCase : jsstring -> jsstring) (text : jsstring)
         (customPrompt : option jsstring),
    let out := generateSimpleSummary toLowerCase text customPrompt in
    let bulletMode := promptIncludes toLowerCase customPrompt (lit "bullet") in
    let actionMode := promptIncludes toLowerCase customPrompt (lit "action") in
    let first3 := lit "Summary: " ++ join space (firstn 3 (sentences text)) in
    (bulletMode = false -> actionMode = false ->
       (keySentences toLowerCase text = [] -> out = first3) /\
       (keySentences toLowerCase text <> [] ->
        out = join space (keySentences toLowerCase text))) /\
    (bulletMode = true ->
       (keySentences toLowerCase text = [] -> out = first3) /\
       (keySentences toLowerCase text <> [] ->
        out = join newline (map bulletLine (keySentences toLowerCase text)))) /\
    (bulletMode = false -> actionMode = true ->
       (actionSentences toLowerCase text = [] -> out = first3) /\
       (actionSentences toLowerCase text <> [] ->
        out = join newline
                (map bulletLine (actionSentences toLowerCase text)))).
Proof.
  intros toLowerCase text customPrompt out bulletMode actionMode first3.
  pose proof (summary_nil_iff toLowerCase text customPrompt) as Hnil.
  fold bulletMode actionMode in Hnil.
  assert (Hsum : summary toLowerCase text customPrompt
                 = if bulletMode
                   then join newline
                          (map bulletLine (keySentences toLowerCase text))
                   else if actionMode
                   then join newline
                          (map bulletLine (actionSentences toLowerCase text))
                   else join space (keySentences toLowerCase text))
    by reflexivity.
  assert (Hfb : summary toLowerCase text customPrompt = [] -> out = first3)
    by apply generateSimpleSummary_fallback.
  assert (Hrd : summary toLowerCase text customPrompt <> [] ->
                out = summary toLowerCase text customPrompt)
    by apply generateSimpleSummary_rendered.
  repeat split; intros; subst bulletMode actionMode;
    repeat match goal with
           | H : promptIncludes _ _ _ = _ |- _ =>
               rewrite H in Hnil, Hsum; clear H
           end;
    try (apply Hfb, Hnil; assumption);
    rewrite <- Hsum; apply Hrd; rewrite Hnil; assumption.
Qed.

Lemma fallback_in_every_mode_witness :
  generateSimpleSummary asciiLower (lit "a b c d e f g h.")
    (Some (lit "list the bullet points"))
  = lit "Summary: a b c d e f g h".
Proof.
  apply (proj1 (proj1 (proj2 (fallback_in_every_mode asciiLower
           (lit "a b c d e f g h.") (Some (lit "list the bullet points"))))
           ltac:(vm_compute; reflexivity))).
  vm_compute. reflexivity.
Defined.

(* ================================================================= *)
(** * The route that creates a summary *)

Lemma save_succeeds (db : Db) (now : N) (i text : jsstring)
    (prompt : option jsstring) (generated : jsstring) :
  i <> [] -> text <> [] -> generated <> [] ->
  connected db = true -> existsb (hasId i) (documents db) = false ->
  save db now i text prompt generated
  = Returns {| connected := connected db;
               documents := documents db ++
                 [ {| id := i; originalText := text; customPrompt := prompt;
                      generatedSummary := generated; editedSummary := None;
                      createdAt := now |} ] |}.
Proof.
  intros Hi Ht Hg Hc Hfresh. unfold save.
  apply isEmpty_false in Hi, Ht, Hg. rewrite Hi, Ht, Hg, Hc, Hfresh.
  reflexivity.
Qed.

Lemma save_never_rejects_remote (db : Db) (now : N) (i text : jsstring)
    (prompt : option jsstring) (generated : jsstring) (message : jsstring) :
  save db now i text prompt generated <> Throws (AxiosError message).
Proof.
  unfold save.
  destruct (isEmpty i || isEmpty text || isEmpty generated)%bool;
    [discriminate|].
  destruct (negb (connected db)); [discriminate|].
  destruct (existsb (hasId i) (documents db)); discriminate.
Qed.

Section RouteFacts.

Variable toLowerCase : jsstring -> jsstring.
Variable env : Env.
Variable axios_post : Remote.

(** A request with a transcript that is not blank, answered from the local
    tier and stored under a fresh identifier. *)
Lemma post_summarize_local uuid now db text prompt :
  remoteUnavailable env axios_post text prompt ->
  jslength (trim text) <> 0 -> uuid <> [] ->
  connected db = true -> existsb (hasId uuid) (documents db) = false ->
  post_summarize toLowerCase env axios_post uuid now db (Some text) prompt
  = ({| status := 200;
        body := SummaryBody uuid
                  (generateSimpleSummary toLowerCase text prompt)
                  (lit "Summary generated successfully (using free AI)") |},
     {| connected := connected db;
        documents := documents db ++
          [ {| id := uuid; originalText := text; customPrompt := prompt;
               generatedSummary :=
                 generateSimpleSummary toLowerCase text prompt;
               editedSummary := None; createdAt := now |} ] |}).
Proof.
  intros Hremote Htext Huuid Hconn Hfresh.
  destruct text as [|c t]; [exfalso; apply Htext; reflexivity|].
  unfold post_summarize.
  apply Nat.eqb_neq in Htext. rewrite Htext.
  rewrite (generateSummaryWithFreeAI_local toLowerCase env axios_post
             (c :: t) prompt Hremote).
  simpl bind.
  rewrite save_succeeds;
    [reflexivity | exact Huuid | discriminate
    | apply generateSimpleSummary_not_empty | exact Hconn | exact Hfresh].
Qed.

(** No response of the route reports an error of the remote call. *)
Lemma post_summarize_absorbs_remote uuid now db text prompt error message :
  body (fst (post_summarize toLowerCase env axios_post uuid now db
               text prompt))
  <> ErrorBody error (Some (AxiosError message)).
Proof.
  unfold post_summarize.
  destruct text as [[|c t]|]; simpl; try discriminate.
  destruct (jslength (trim (c :: t)) =? 0); simpl; [discriminate|].
  destruct (generateSummaryWithFreeAI_returns toLowerCase env axios_post
              (c :: t) prompt) as [s ->].
  simpl bind.
  destruct (save db now uuid (c :: t) prompt s) as [db'|e] eqn:E; simpl;
    [discriminate|].
  intros H. injection H as _ ->.
  exact (save_never_rejects_remote db now uuid (c :: t) prompt s message E).
Qed.

End RouteFacts.

(** C2.  When the credential is absent from the environment, or the remote
    call is rejected, or its reply lacks the summary field, the orchestrator
    returns what [generateSimpleSummary] returns for the same transcript and
    prompt, and does not throw.  For a transcript that is not blank, stored
    under a fresh identifier in a reachable database, the caller gets status
    200 with that local summary; no response of the route, whatever the
    request, carries the error of the remote call. *)
Theorem remote_failure_yields_local_summary :
  forall (toLowerCase : jsstring -> jsstring) (env : Env)
         (axios_post : Remote) (text : jsstring)
         (customPrompt : option jsstring),
    (HUGGINGFACE_API_KEY env = None \/
     exists key,
       HUGGINGFACE_API_KEY env = Some key /\
       ((exists error,
           axios_post (authorization key) (requestInputs customPrompt text)
           = Throws error) \/
        axios_post (authorization key) (requestInputs customPrompt text)
        = Returns None)) ->
    generateSummaryWithFreeAI toLowerCase env axios_post text customPrompt
    = Returns (generateSimpleSummary toLowerCase text customPrompt) /\
    (forall uuid now db,
        jslength (trim text) <> 0 -> uuid <> [] ->
        connected db = true -> existsb (hasId uuid) (documents db) = false ->
        fst (post_summarize toLowerCase env axios_post uuid now db
               (Some text) customPrompt)
        = {| status := 200;
             body := SummaryBody uuid
                       (generateSimpleSummary toLowerCase text customPrompt)
                       (lit "Summary generated successfully (using free AI)")
          |}) /\
    (forall uuid now db request error message,
        body (fst (post_summarize toLowerCase env axios_post uuid now db
                     request customPrompt))
        <> ErrorBody error (Some (AxiosError message))).
Proof.
  intros toLowerCase env axios_post text customPrompt Hfail.
  assert (Hun : remoteUnavailable env axios_post text customPrompt).
  { unfold remoteUnavailable.
    destruct Hfail as [-> | [key [-> Hcall]]]; [exact I|].
    destruct key as [|c key]; [exact I|].
    destruct Hcall as [[e ->] | ->]; exact I. }
  split; [apply generateSummaryWithFreeAI_local; exact Hun|].
  split.
  - intros uuid now db Htext Huuid Hconn Hfresh.
    rewrite (post_summarize_local toLowerCase env axios_post uuid now db
               text customPrompt Hun Htext Huuid Hconn Hfresh).
    reflexivity.
  - intros. apply post_summarize_absorbs_remote.
Qed.

Lemma remote_failure_yields_local_summary_witness :
  generateSummaryWithFreeAI asciiLower
    {| HUGGINGFACE_API_KEY := Some (lit "hf_key") |}
    (fun _ _ => Throws (AxiosError (lit "timeout of 1000ms exceeded")))
    (lit "We will ship the release on Friday.") None
  = Returns (lit "We will ship the release on Friday").
Proof.
  rewrite (proj1 (remote_failure_yields_local_summary asciiLower
             {| HUGGINGFACE_API_KEY := Some (lit "hf_key") |}
             (fun _ _ => Throws (AxiosError (lit "timeout of 1000ms exceeded")))
             (lit "We will ship the release on Friday.") None
             (or_intror (ex_intro _ (lit "hf_key")
                (conj eq_refl (or_introl (ex_intro _ _ eq_refl))))))).
  vm_compute. reflexivity.
Defined.

(** C1.  For a non-empty transcript with a sentence of at least 10 code
    units, [generateSimpleSummary] returns a non-empty string whatever the
    prompt; so does the orchestrator on the local path, and the record the
    route stores for it has a non-empty [generatedSummary]. *)
Theorem local_pipeline_summary_nonempty :
  forall (toLowerCase : jsstring -> jsstring) (text : jsstring)
         (customPrompt : option jsstring),
    text <> [] ->
    (exists s, In s (rawSentences text) /\ 10 <= jslength s) ->
    generateSimpleSummary toLowerCase text customPrompt <> [] /\
    (forall env axios_post,
        remoteUnavailable env axios_post text customPrompt ->
        exists s,
          generateSummaryWithFreeAI toLowerCase env axios_post text
            customPrompt = Returns s /\ s <> []) /\
    (forall env axios_post uuid now db,
        remoteUnavailable env axios_post text customPrompt ->
        jslength (trim text) <> 0 -> uuid <> [] ->
        connected db = true -> existsb (hasId uuid) (documents db) = false ->
        exists r,
          documents (snd (post_summarize toLowerCase env axios_post uuid now
                            db (Some text) customPrompt))
          = documents db ++ [r] /\
          generatedSummary r <> []).
Proof.
  intros toLowerCase text customPrompt _ _.
  split; [apply generateSimpleSummary_not_empty|].
  split.
  - intros env axios_post Hun.
    exists (generateSimpleSummary toLowerCase text customPrompt).
    split; [apply generateSummaryWithFreeAI_local; exact Hun
           | apply generateSimpleSummary_not_empty].
  - intros env axios_post uuid now db Hun Htext Huuid Hconn Hfresh.
    rewrite (post_summarize_local toLowerCase env axios_post uuid now db
               text customPrompt Hun Htext Huuid Hconn Hfresh).
    simpl. eexists. split; [reflexivity|].
    simpl. apply generateSimpleSummary_not_empty.
Qed.

Lemma local_pipeline_summary_nonempty_witness :
  generateSimpleSummary asciiLower
    (lit "We will ship the release on Friday.")
    (Some (lit "action items")) <> [].
Proof.
  apply (local_pipeline_summary_nonempty asciiLower
           (lit "We will ship the release on Friday.")
           (Some (lit "action items"))).
  - discriminate.
  - exists (lit "We will ship the release on Friday").
    split; [left; reflexivity | vm_compute; repeat constructor].
Defined.

(* ================================================================= *)
(** * The route that edits a summary *)

Lemma updateFirst_unknown (i e : jsstring) (docs : list SummaryRecord) :
  existsb (hasId i) docs = false -> updateFirst i e docs = None.
Proof.
  induction docs as [|r docs IH]; simpl; [reflexivity|].
  intros H. apply orb_false_iff in H as [Hr Hrest].
  rewrite Hr, (IH Hrest). reflexivity.
Qed.

Lemma updateFirst_known (i e : jsstring) (docs : list SummaryRecord) :
  existsb (hasId i) docs = true ->
  exists r docs', updateFirst i e docs = Some (r, docs').
Proof.
  induction docs as [|r docs IH]; simpl; [discriminate|].
  intros H. destruct (hasId i r); [eauto|].
  destruct (IH H) as [r' [docs' ->]]. eauto.
Qed.

(** What an update leaves: every document is kept as it is, except that the
    document found has [editedSummary] set; the document returned is in the
    collection. *)
Lemma updateFirst_frame (i e : jsstring) (docs docs' : list SummaryRecord)
    (r' : SummaryRecord) :
  updateFirst i e docs = Some (r', docs') ->
  Forall2 (fun r r1 =>
             r1 = r \/
             (id r = i /\ sameFrame r r1 /\ editedSummary r1 = Some e))
          docs docs' /\
  In r' docs' /\ id r' = i /\ editedSummary r' = Some e.
Proof.
  revert docs' r'. induction docs as [|r docs IH]; simpl; intros docs' r' H;
    [discriminate|].
  destruct (hasId i r) eqn:Hid.
  - injection H as <- <-. apply streq_eq in Hid.
    split.
    + constructor.
      * right. unfold sameFrame. simpl. repeat split; exact Hid.
      * clear. induction docs; constructor; auto.
    + split; [left; reflexivity|]. simpl. split; [exact Hid | reflexivity].
  - destruct (updateFirst i e docs) as [[r1 docs1]|]; [|discriminate].
    injection H as <- <-.
    destruct (IH docs1 r1 eq_refl) as [HF [Hin Hr1]].
    split; [constructor; [left; reflexivity | exact HF]|].
    split; [right; exact Hin | exact Hr1].
Qed.

(** A second update of the same document overrides the first. *)
Lemma updateFirst_twice (i e1 e2 : jsstring)
    (docs docs1 : list SummaryRecord) (r1 : SummaryRecord) :
  updateFirst i e1 docs = Some (r1, docs1) ->
  updateFirst i e2 docs1 = updateFirst i e2 docs.
Proof.
  revert docs1 r1. induction docs as [|r docs IH]; simpl; intros docs1 r1 H;
    [discriminate|].
  destruct (hasId i r) eqn:Hid.
  - injection H as <- <-. simpl.
    unfold hasId in *. simpl. rewrite Hid. reflexivity.
  - destruct (updateFirst i e1 docs) as [[r' docs']|] eqn:E; [|discriminate].
    injection H as <- <-. simpl. rewrite Hid.
    rewrite (IH docs' r' eq_refl). reflexivity.
Qed.

(** C9, as the specification words it, fails: an edit with an unknown id
    and an empty (or missing) [editedSummary] is answered with 400, not
    404. *)
Lemma edit_unknown_id_counterexample :
  existsb (hasId (lit "no-such-id")) (documents sampleDb) = false /\
  status (fst (put_summaries sampleDb (lit "no-such-id") (Some []))) = 400 /\
  status (fst (put_summaries sampleDb (lit "no-such-id") None)) = 400 /\
  status (fst (put_summaries sampleDb (lit "no-such-id") (Some []))) <> 404.
Proof.
  repeat split; try (vm_compute; reflexivity). vm_compute. discriminate.
Qed.

(** C9, amended.  An edit with an empty or missing [editedSummary] fails
    with 400 whether or not the id is known; otherwise, with the database
    unreachable it fails with 500, and with an unknown id it fails with
    404; in these three cases no record changes.  Otherwise the answer is
    200 and the record found has [editedSummary] set to the new value while
    its [id], [originalText], [customPrompt], [generatedSummary] and
    [createdAt], and every other record, are as before.  A further edit
    replaces the value: the collection is the one the last edit alone
    produces. *)
Theorem edit_changes_only_editedSummary :
  forall (db : Db) (i : jsstring) (edited : option jsstring),
    ((edited = None \/ edited = Some []) ->
     status (fst (put_summaries db i edited)) = 400 /\
     snd (put_summaries db i edited) = db) /\
    (forall e, edited = Some e -> e <> [] ->
       (connected db = false ->
        status (fst (put_summaries db i edited)) = 500 /\
        snd (put_summaries db i edited) = db) /\
       (connected db = true -> existsb (hasId i) (documents db) = false ->
        status (fst (put_summaries db i edited)) = 404 /\
        snd (put_summaries db i edited) = db) /\
       (connected db = true -> existsb (hasId i) (documents db) = true ->
        status (fst (put_summaries db i edited)) = 200 /\
        Forall2 (fun r r' =>
                   r' = r \/
                   (id r = i /\ sameFrame r r' /\ editedSummary r' = Some e))
          (documents db) (documents (snd (put_summaries db i edited))) /\
        (exists r', In r' (documents (snd (put_summaries db i edited))) /\
                    id r' = i /\ editedSummary r' = Some e) /\
        (forall e2, e2 <> [] ->
           put_summaries (snd (put_summaries db i edited)) i (Some e2)
           = put_summaries db i (Some e2)))).
Proof.
  intros db i edited. split.
  - intros [-> | ->]; simpl; auto.
  - intros e -> He. destruct e as [|c e]; [congruence|]. clear He.
    unfold put_summaries, findOneAndUpdate.
    split; [intros ->; simpl; auto|].
    split.
    + intros -> Hunknown. simpl.
      rewrite (updateFirst_unknown i (c :: e) (documents db) Hunknown).
      simpl. auto.
    + intros Hconn Hknown. rewrite Hconn. simpl negb. cbv iota.
      destruct (updateFirst_known i (c :: e) (documents db) Hknown)
        as [r' [docs' Hup]].
      rewrite Hup. simpl.
      destruct (updateFirst_frame i (c :: e) (documents db) docs' r' Hup)
        as [HF [Hin [Hid Hed]]].
      split; [reflexivity|].
      split; [exact HF|].
      split; [exists r'; auto|].
      intros [|c2 e2] He2; [congruence|].
      rewrite (updateFirst_twice i (c :: e) (c2 :: e2) (documents db)
                 docs' r' Hup).
      destruct (updateFirst_known i (c2 :: e2) (documents db) Hknown)
        as [r2 [docs2 ->]].
      reflexivity.
Qed.

Lemma edit_changes_only_editedSummary_witness :
  status (fst (put_summaries sampleDb (lit "a1") (Some (lit "Edited."))))
  = 200 /\
  exists r',
    In r' (documents
             (snd (put_summaries sampleDb (lit "a1") (Some (lit "Edited.")))))
    /\ id r' = lit "a1" /\ editedSummary r' = Some (lit "Edited.").
Proof.
  destruct (proj2 (proj2 (proj2 (edit_changes_only_editedSummary sampleDb
              (lit "a1") (Some (lit "Edited.")))
              (lit "Edited.") eq_refl ltac:(discriminate)))
              eq_refl eq_refl) as [Hstatus [_ [Hrecord _]]].
  split; [exact Hstatus | exact Hrecord].
Defined.

(* ================================================================= *)
(** * Selection of sentences *)

Lemma firstn_filter_complete {A : Type} (n : nat) (f : A -> bool)
    (l : list A) (x : A) :
  In x l -> f x = true ->
  In x (firstn n (filter f l)) \/ List.length (firstn n (filter f l)) = n.
Proof.
  intros Hin Hf.
  assert (Hx : In x (filter f l)) by (apply filter_In; auto).
  destruct (Nat.le_gt_cases (List.length (filter f l)) n) as [Hle | Hgt].
  - left. rewrite firstn_all2 by exact Hle. exact Hx.
  - right. rewrite length_firstn. lia.
Qed.

Lemma splitRuns_piece (C : N -> bool) (u : jsstring) (c : N) (t : jsstring) :
  forallb (fun x => negb (C x)) u = true -> C c = true ->
  splitRuns C false (u ++ c :: t) = u :: splitRuns C true t.
Proof.
  intros Hu Hc. induction u as [|x u IH]; simpl.
  - rewrite Hc. reflexivity.
  - simpl in Hu. apply andb_true_iff in Hu as [Hx Hu].
    apply negb_true_iff in Hx. rewrite Hx, (IH Hu). reflexivity.
Qed.

Lemma splitRuns_after_run (C : N -> bool) (s : jsstring) :
  match s with [] => True | x :: _ => C x = false end ->
  splitRuns C true s = splitRuns C false s.
Proof.
  destruct s as [|x s]; simpl; [reflexivity|].
  intros ->. reflexivity.
Qed.

Lemma sentences_actionTranscript (n : nat) :
  sentences (actionTranscript n) = repeat (lit "we will go now") n.
Proof.
  assert (Hsplit : forall n,
            split isTerminator (actionTranscript n)
            = repeat (lit "we will go now") n ++ [[]]).
  { clear n. induction n as [|n IH]; [reflexivity|].
    unfold split in *.
    replace (actionTranscript (S n))
      with (lit "we will go now" ++ 46%N :: actionTranscript n)
      by reflexivity.
    rewrite splitRuns_piece by reflexivity.
    rewrite splitRuns_after_run by (destruct n; simpl; auto).
    rewrite IH. reflexivity. }
  unfold sentences. rewrite Hsplit. clear Hsplit.
  induction n as [|n IH]; [reflexivity|].
  simpl repeat. simpl app. cbn [filter].
  replace (10 <? jslength (trim (lit "we will go now"))) with true
    by (vm_compute; reflexivity).
  rewrite IH. reflexivity.
Qed.

Section SelectionFacts.

Variable toLowerCase : jsstring -> jsstring.

Lemma hasKeyword_Occurs kws s :
  hasKeyword toLowerCase kws s = true <->
  exists k, In k kws /\ Occurs k (toLowerCase s).
Proof.
  unfold hasKeyword. rewrite existsb_exists.
  split; intros [k [Hk H]]; exists k; split; auto;
    apply includes_Occurs; exact H.
Qed.

Lemma hasActionWord_Occurs s :
  hasActionWord toLowerCase s = true <->
  exists w, In w actionWords /\ Occurs w (toLowerCase s).
Proof. apply (hasKeyword_Occurs actionWords). Qed.

Lemma keySentences_length text :
  List.length (keySentences toLowerCase text) <= 5.
Proof. unfold keySentences. apply firstn_le_length. Qed.

Lemma keySentence_has_keyword text s :
  In s (keySentences toLowerCase text) ->
  exists k, In k (keywords toLowerCase text) /\ Occurs k (toLowerCase s).
Proof.
  unfold keySentences. intros H.
  apply (Subseq_In _ _ s (Subseq_firstn 5 _)) in H.
  apply filter_In in H as [_ H]. apply hasKeyword_Occurs. exact H.
Qed.

Lemma actionSentences_In text s :
  In s (actionSentences toLowerCase text) <->
  In s (sentences text) /\
  exists w, In w actionWords /\ Occurs w (toLowerCase s).
Proof.
  unfold actionSentences. rewrite filter_In, hasActionWord_Occurs.
  reflexivity.
Qed.

Hypothesis toLowerCase_ascii : lowersAscii toLowerCase.

Lemma actionSentences_unbounded (n : nat) :
  List.length (actionSentences toLowerCase (actionTranscript n)) = n.
Proof.
  unfold actionSentences. rewrite sentences_actionTranscript.
  induction n as [|n IH]; [reflexivity|].
  simpl repeat. cbn [filter].
  replace (hasActionWord toLowerCase (lit "we will go now")) with true.
  - simpl. rewrite IH. reflexivity.
  - unfold hasActionWord.
    rewrite (toLowerCase_ascii (lit "we will go now") eq_refl).
    vm_compute. reflexivity.
Qed.

End SelectionFacts.

(** C4.  The keyword-based selection has at most 5 sentences, taken in
    transcript order, each with a ranked keyword occurring in its lower-cased
    text; a sentence with a keyword is left out only once 5 are selected.
    The action selection keeps every sentence in which one of the six
    markers occurs, lower-cased, in transcript order and without a cap: a
    transcript can have any number of them selected. *)
Theorem selection_of_sentences :
  forall (toLowerCase : jsstring -> jsstring) (text : jsstring),
    List.length (keySentences toLowerCase text) <= 5 /\
    Subseq (keySentences toLowerCase text) (sentences text) /\
    (forall s, In s (keySentences toLowerCase text) ->
       exists k, In k (keywords toLowerCase text) /\
                 Occurs k (toLowerCase s)) /\
    (forall s k, In s (sentences text) ->
       In k (keywords toLowerCase text) -> Occurs k (toLowerCase s) ->
       In s (keySentences toLowerCase text) \/
       List.length (keySentences toLowerCase text) = 5) /\
    actionWords = [lit "will"; lit "going to"; lit "plan to"; lit "need to";
                   lit "should"; lit "must"] /\
    Subseq (actionSentences toLowerCase text) (sentences text) /\
    (forall s, In s (actionSentences toLowerCase text) <->
       In s (sentences text) /\
       exists w, In w actionWords /\ Occurs w (toLowerCase s)) /\
    (forall customPrompt,
       promptIncludes toLowerCase customPrompt (lit "bullet") = false ->
       promptIncludes toLowerCase customPrompt (lit "action") = true ->
       summary toLowerCase text customPrompt
       = join newline (map bulletLine (actionSentences toLowerCase text))) /\
    (forall customPrompt,
       promptIncludes toLowerCase customPrompt (lit "bullet") = true ->
       summary toLowerCase text customPrompt
       = join newline (map bulletLine (keySentences toLowerCase text))) /\
    (forall customPrompt,
       promptIncludes toLowerCase customPrompt (lit "bullet") = false ->
       promptIncludes toLowerCase customPrompt (lit "action") = false ->
       summary toLowerCase text customPrompt
       = join space (keySentences toLowerCase text)) /\
    (lowersAscii toLowerCase ->
     forall n, exists transcript,
       List.length (actionSentences toLowerCase transcript) = n).
Proof.
  intros toLowerCase text.
  split; [apply keySentences_length|].
  split; [apply keySentences_Subseq|].
  split; [apply keySentence_has_keyword|].
  split.
  { intros s k Hs Hk Hocc. unfold keySentences.
    apply firstn_filter_complete; [exact Hs|].
    apply hasKeyword_Occurs. exists k. auto. }
  split; [reflexivity|].
  split; [apply Subseq_filter|].
  split; [apply actionSentences_In|].
  split.
  { intros customPrompt Hbullet Haction. unfold summary.
    rewrite Hbullet, Haction. reflexivity. }
  split.
  { intros customPrompt Hbullet. unfold summary.
    rewrite Hbullet. reflexivity. }
  split.
  { intros customPrompt Hbullet Haction. unfold summary.
    rewrite Hbullet, Haction. reflexivity. }
  intros Hascii n. exists (actionTranscript n).
  apply actionSentences_unbounded. exact Hascii.
Qed.

Lemma selection_of_sentences_witness :
  exists transcript,
    List.length (actionSentences asciiLower transcript) = 7.
Proof.
  apply (proj2 (proj2 (proj2 (proj2 (proj2 (proj2 (proj2 (proj2 (proj2
           (proj2 (selection_of_sentences asciiLower []))))))))))).
  apply asciiLower_lowersAscii.
Defined.

(* ================================================================= *)
(** * Rendering in the bullet and in the action mode *)

Lemma lines_one (p : jsstring) : ~ In 10%N p -> lines p = [p].
Proof.
  induction p as [|c p IH]; simpl; [reflexivity|].
  intros H. destruct (N.eqb_spec c 10) as [-> | _]; [tauto|].
  rewrite IH by tauto. reflexivity.
Qed.

Lemma lines_app (p rest : jsstring) :
  ~ In 10%N p -> lines (p ++ newline ++ rest) = p :: lines rest.
Proof.
  induction p as [|c p IH]; simpl; [reflexivity|].
  intros H. destruct (N.eqb_spec c 10) as [-> | _]; [tauto|].
  simpl in IH. rewrite IH by tauto. reflexivity.
Qed.

(** The lines of a text joined by line feeds are its parts, when no part
    has a line feed of its own. *)
Lemma lines_join (parts : list jsstring) :
  parts <> [] -> (forall p, In p parts -> ~ In 10%N p) ->
  lines (join newline parts) = parts.
Proof.
  induction parts as [|p parts IH]; [congruence|].
  intros _ Hfree. destruct parts as [|q parts].
  - simpl. apply lines_one. apply Hfree. left. reflexivity.
  - change (join newline (p :: q :: parts))
      with (p ++ newline ++ join newline (q :: parts)).
    rewrite lines_app by (apply Hfree; left; reflexivity).
    rewrite IH; [reflexivity | discriminate |].
    intros p' Hp'. apply Hfree. right. exact Hp'.
Qed.

Lemma bulletLine_starts (s : jsstring) :
  startsWith (bulletLine s) bullet = true.
Proof. apply startsWith_prefix. exists (trim s). reflexivity. Qed.

Lemma join_bullets_starts (l : list jsstring) :
  l <> [] -> startsWith (join newline (map bulletLine l)) bullet = true.
Proof.
  destruct l as [|s l]; [congruence|]. intros _.
  apply startsWith_prefix. destruct l as [|s' l].
  - exists (trim s). reflexivity.
  - eexists. simpl. reflexivity.
Qed.

Lemma lines_of_bullets (l : list jsstring) :
  l <> [] -> (forall s, In s l -> ~ In 10%N (trim s)) ->
  Forall (fun line => startsWith line bullet = true)
    (lines (join newline (map bulletLine l))).
Proof.
  intros Hne Hfree. rewrite lines_join.
  - apply Forall_forall. intros line Hline.
    apply in_map_iff in Hline as [s [<- _]]. apply bulletLine_starts.
  - destruct l; [congruence | discriminate].
  - intros p Hp. apply in_map_iff in Hp as [s [<- Hs]].
    unfold bulletLine, bullet. simpl. intros [H | [H | H]];
      [discriminate | discriminate | exact (Hfree s Hs H)].
Qed.

(** C5, as the specification words it, fails.  With a "bullet" prompt and a
    transcript without keywords the result is the fallback text, which is
    not a list of bullets; and a selected sentence that spans two lines
    gives a second line without a bullet. *)
Lemma bullet_lines_counterexample :
  promptIncludes asciiLower (Some (lit "bullet points")) (lit "bullet")
    = true /\
  generateSimpleSummary asciiLower (lit "a b c d e f g h.")
    (Some (lit "bullet points"))
    = lit "Summary: a b c d e f g h" /\
  generateSimpleSummary asciiLower (lit "a b c d e f g h.")
    (Some (lit "bullet points"))
    <> join newline
         (map bulletLine (keySentences asciiLower (lit "a b c d e f g h."))) /\
  forallb (fun line => startsWith line bullet)
    (lines (generateSimpleSummary asciiLower (lit "a b c d e f g h.")
              (Some (lit "bullet points"))))
    = false /\
  generateSimpleSummary asciiLower
    (lit "alpha beta" ++ newline ++ lit "gamma delta.")
    (Some (lit "bullet points"))
    = bullet ++ lit "alpha beta" ++ newline ++ lit "gamma delta" /\
  lines (generateSimpleSummary asciiLower
           (lit "alpha beta" ++ newline ++ lit "gamma delta.")
           (Some (lit "bullet points")))
    = [bullet ++ lit "alpha beta"; lit "gamma delta"] /\
  startsWith (lit "gamma delta") bullet = false.
Proof.
  repeat split; try (vm_compute; reflexivity). vm_compute. discriminate.
Qed.

(** C5, amended.  If the prompt contains "bullet" (in any case, and whether
    or not it also contains "action"), then, when the keyword-based
    selection is not empty, the result is the selected sentences, each
    rendered as the bullet marker and the trimmed sentence, joined by line
    feeds; it begins with the marker, and every line of it begins with the
    marker provided no selected sentence has a line feed inside.  When the
    selection is empty the result is the fallback text. *)
Theorem bullet_mode_rendering :
  forall (toLowerCase : jsstring -> jsstring) (text : jsstring)
         (customPrompt : option jsstring),
    promptIncludes toLowerCase customPrompt (lit "bullet") = true ->
    (keySentences toLowerCase text <> [] ->
     generateSimpleSummary toLowerCase text customPrompt
     = join newline (map bulletLine (keySentences toLowerCase text)) /\
     startsWith (generateSimpleSummary toLowerCase text customPrompt) bullet
     = true /\
     ((forall s, In s (keySentences toLowerCase text) ->
                 ~ In 10%N (trim s)) ->
      Forall (fun line => startsWith line bullet = true)
        (lines (generateSimpleSummary toLowerCase text customPrompt)))) /\
    (keySentences toLowerCase text = [] ->
     generateSimpleSummary toLowerCase text customPrompt
     = lit "Summary: " ++ join space (firstn 3 (sentences text))).
Proof.
  intros toLowerCase text customPrompt Hbullet.
  assert (Hsum : summary toLowerCase text customPrompt
                 = join newline
                     (map bulletLine (keySentences toLowerCase text))).
  { unfold summary. rewrite Hbullet. reflexivity. }
  split.
  - intros Hne.
    assert (Hout : generateSimpleSummary toLowerCase text customPrompt
                   = join newline
                       (map bulletLine (keySentences toLowerCase text))).
    { rewrite generateSimpleSummary_rendered; [exact Hsum|].
      rewrite Hsum, join_bullets_nil. exact Hne. }
    rewrite Hout.
    split; [reflexivity|].
    split; [apply join_bullets_starts; exact Hne|].
    apply lines_of_bullets. exact Hne.
  - intros Hnil. apply generateSimpleSummary_fallback.
    rewrite Hsum, Hnil. reflexivity.
Qed.

Lemma bullet_mode_rendering_witness :
  generateSimpleSummary asciiLower
    (lit "Alpha went well. Beta slipped again!")
    (Some (lit "Bullet points, with action items"))
  = bullet ++ lit "Alpha went well" ++ newline
    ++ bullet ++ lit "Beta slipped again".
Proof.
  rewrite (proj1 (proj1 (bullet_mode_rendering asciiLower
             (lit "Alpha went well. Beta slipped again!")
             (Some (lit "Bullet points, with action items"))
             ltac:(vm_compute; reflexivity))
             ltac:(vm_compute; discriminate))).
  vm_compute. reflexivity.
Defined.

(** C6, as the specification words it, fails: with an "action" prompt and a
    transcript without any marker the result is the fallback text, which
    contains a sentence that matches no marker. *)
Lemma action_mode_fallback_counterexample :
  promptIncludes asciiLower (Some (lit "action items")) (lit "bullet")
    = false /\
  promptIncludes asciiLower (Some (lit "action items")) (lit "action")
    = true /\
  sentences (lit "We discussed the budget today.")
    = [lit "We discussed the budget today"] /\
  hasActionWord asciiLower (lit "We discussed the budget today") = false /\
  generateSimpleSummary asciiLower (lit "We discussed the budget today.")
    (Some (lit "action items"))
    = lit "Summary: We discussed the budget today" /\
  includes
    (generateSimpleSummary asciiLower (lit "We discussed the budget today.")
       (Some (lit "action items")))
    (lit "We discussed the budget today") = true.
Proof.
  repeat split; vm_compute; reflexivity.
Qed.

(** C6, amended.  If the prompt contains "action" and not "bullet", then,
    when at least one sentence contains an action marker, the result is
    exactly the sentences containing a marker, each rendered with the
    bullet marker, joined by line feeds; when no sentence contains one, the
    result is the fallback text.  For the transcript of the scenario and
    the prompt "give me action items" the result is the "will" sentence and
    the "should" sentence, each with its bullet, without the first
    sentence. *)
Theorem action_mode_rendering :
  forall (toLowerCase : jsstring -> jsstring) (text : jsstring)
         (customPrompt : option jsstring),
    promptIncludes toLowerCase customPrompt (lit "bullet") = false ->
    promptIncludes toLowerCase customPrompt (lit "action") = true ->
    (forall s, In s (actionSentences toLowerCase text) ->
       In s (sentences text) /\
       exists w, In w actionWords /\ Occurs w (toLowerCase s)) /\
    (actionSentences toLowerCase text <> [] ->
     generateSimpleSummary toLowerCase text customPrompt
     = join newline (map bulletLine (actionSentences toLowerCase text))) /\
    (actionSentences toLowerCase text = [] ->
     generateSimpleSummary toLowerCase text customPrompt
     = lit "Summary: " ++ join space (firstn 3 (sentences text))) /\
    (lowersAscii toLowerCase ->
     generateSimpleSummary toLowerCase scenarioTranscript
       (Some (lit "give me action items"))
     = bullet ++ lit "We will finish the report" ++ newline
       ++ bullet ++ lit "We should call the client" /\
     includes
       (generateSimpleSummary toLowerCase scenarioTranscript
          (Some (lit "give me action items")))
       (bullet ++ lit "We will finish the report") = true /\
     includes
       (generateSimpleSummary toLowerCase scenarioTranscript
          (Some (lit "give me action items")))
       (bullet ++ lit "We should call the client") = true /\
     includes
       (generateSimpleSummary toLowerCase scenarioTranscript
          (Some (lit "give me action items")))
       (lit "This is a test") = false).
Proof.
  intros toLowerCase text customPrompt Hbullet Haction.
  assert (Hsum : summary toLowerCase text customPrompt
                 = join newline
                     (map bulletLine (actionSentences toLowerCase text))).
  { unfold summary. rewrite Hbullet, Haction. reflexivity. }
  split; [intros s Hs; apply actionSentences_In; exact Hs|].
  split.
  { intros Hne. rewrite generateSimpleSummary_rendered; [exact Hsum|].
    rewrite Hsum, join_bullets_nil. exact Hne. }
  split.
  { intros Hnil. apply generateSimpleSummary_fallback.
    rewrite Hsum, Hnil. reflexivity. }
  intros Hascii.
  rewrite (generateSimpleSummary_ascii toLowerCase Hascii
             scenarioTranscript (Some (lit "give me action items"))
             eq_refl eq_refl).
  repeat split; vm_compute; reflexivity.
Qed.

Lemma action_mode_rendering_witness :
  generateSimpleSummary asciiLower scenarioTranscript
    (Some (lit "give me action items"))
  = bullet ++ lit "We will finish the report" ++ newline
    ++ bullet ++ lit "We should call the client".
Proof.
  apply (proj2 (proj2 (proj2 (action_mode_rendering asciiLower
           scenarioTranscript (Some (lit "give me action items"))
           ltac:(vm_compute; reflexivity) ltac:(vm_compute; reflexivity))))).
  apply asciiLower_lowersAscii.
Defined.

(* ================================================================= *)
(** * Sorted lists *)

Section SortedLists.

Context {A : Type}.

Lemma StronglySorted_weaken (R R' : A -> A -> Prop) (l : list A) :
  (forall a b, In a l -> In b l -> R a b -> R' a b) ->
  StronglySorted R l -> StronglySorted R' l.
Proof.
  intros Himp Hs. induction Hs as [|a l Hs IH Hall]; constructor.
  - apply IH. intros x y Hx Hy. apply Himp; right; assumption.
  - rewrite Forall_forall in Hall |- *. intros b Hb.
    apply Himp; [left; reflexivity | right; exact Hb | apply Hall, Hb].
Qed.

Lemma StronglySorted_app (R : A -> A -> Prop) (l1 l2 : list A) :
  StronglySorted R l1 -> StronglySorted R l2 ->
  (forall a b, In a l1 -> In b l2 -> R a b) ->
  StronglySorted R (l1 ++ l2).
Proof.
  intros H1 H2 Hcross. induction H1 as [|a l1 H1 IH Hall]; simpl.
  - exact H2.
  - constructor.
    + apply IH. intros x y Hx Hy. apply Hcross; [right|]; assumption.
    + apply Forall_app. split; [exact Hall|].
      apply Forall_forall. intros b Hb.
      apply Hcross; [left; reflexivity | exact Hb].
Qed.

Lemma StronglySorted_filter (R : A -> A -> Prop) (f : A -> bool)
    (l : list A) :
  StronglySorted R l -> StronglySorted R (filter f l).
Proof.
  intros Hs. induction Hs as [|a l Hs IH Hall]; simpl; [constructor|].
  destruct (f a); [|exact IH].
  constructor; [exact IH|].
  rewrite Forall_forall in Hall |- *. intros b Hb.
  apply filter_In in Hb as [Hb _]. apply Hall, Hb.
Qed.

Lemma StronglySorted_map {B : Type} (R : B -> B -> Prop) (f : A -> B)
    (l : list A) :
  StronglySorted (fun x y => R (f x) (f y)) l ->
  StronglySorted R (map f l).
Proof.
  intros Hs. induction Hs as [|a l Hs IH Hall]; simpl; constructor.
  - exact IH.
  - rewrite Forall_forall in Hall |- *. intros b Hb.
    apply in_map_iff in Hb as [x [<- Hx]]. apply Hall, Hx.
Qed.

Lemma StronglySorted_unmap {B : Type} (R : B -> B -> Prop) (f : A -> B)
    (l : list A) :
  StronglySorted R (map f l) ->
  StronglySorted (fun x y => R (f x) (f y)) l.
Proof.
  induction l as [|a l IH]; simpl; intros Hs; [constructor|].
  inversion Hs as [|? ? Hs' Hall]; subst. constructor; [apply IH, Hs'|].
  rewrite Forall_forall in Hall |- *. intros b Hb.
  apply Hall, in_map, Hb.
Qed.

(** In a sorted list without repetition the order is between different
    elements. *)
Lemma StronglySorted_distinct {B : Type} (R : A -> A -> Prop) (f : A -> B)
    (l : list A) :
  NoDup (map f l) -> StronglySorted R l ->
  StronglySorted (fun x y => R x y /\ f x <> f y) l.
Proof.
  intros Hnd Hs. induction Hs as [|a l Hs IH Hall]; [constructor|].
  simpl in Hnd. inversion Hnd as [|? ? Hnotin Hnd']; subst.
  constructor; [apply IH, Hnd'|].
  rewrite Forall_forall in Hall |- *. intros b Hb.
  split; [apply Hall, Hb|].
  intros Heq. apply Hnotin. rewrite Heq. apply in_map, Hb.
Qed.

End SortedLists.

(* ================================================================= *)
(** * The sort is a stable sort *)

Section StableSort.

Context {A : Type}.
Variable comparefn : A -> A -> option Z.

(** The elements on which the comparator is the difference of two
    weights, and the order of the list before the sort. *)
Variable P : A -> Prop.
Variable weight : A -> nat.
Variable before : A -> A -> Prop.

Hypothesis comparefn_weight :
  forall x y, P x -> P y ->
    (0 <? sortCompare comparefn x y)%Z = (weight x <? weight y).

Local Notation "'heavierOrBefore'" :=
  (fun x y => weight y < weight x \/ (weight x = weight y /\ before x y)).

Lemma sortInsert_Permutation (x : A) (l : list A) :
  Permutation (sortInsert comparefn x l) (x :: l).
Proof.
  induction l as [|y l IH]; simpl; [reflexivity|].
  destruct (0 <? sortCompare comparefn x y)%Z; [|reflexivity].
  rewrite IH. apply perm_swap.
Qed.

Lemma Array_sort_Permutation (l : list A) :
  Permutation (Array_sort comparefn l) l.
Proof.
  induction l as [|x l IH]; simpl; [reflexivity|].
  rewrite sortInsert_Permutation. constructor. exact IH.
Qed.

Lemma sortInsert_sorted (x : A) (l : list A) :
  P x -> Forall P l -> Forall (before x) l ->
  StronglySorted heavierOrBefore l ->
  StronglySorted heavierOrBefore (sortInsert comparefn x l).
Proof.
  intros Hx HP Hbefore Hs.
  induction Hs as [|y l Hs IH Hall]; simpl.
  - repeat constructor.
  - inversion HP as [|? ? Hy HP']; subst.
    inversion Hbefore as [|? ? Hxy Hbefore']; subst.
    rewrite (comparefn_weight x y Hx Hy).
    destruct (weight x <? weight y) eqn:E.
    + apply Nat.ltb_lt in E. constructor; [apply IH; assumption|].
      eapply Permutation_Forall;
        [symmetry; apply sortInsert_Permutation|].
      constructor; [left; exact E | exact Hall].
    + apply Nat.ltb_ge in E. constructor; [constructor; assumption|].
      constructor.
      { destruct (Nat.eq_dec (weight x) (weight y));
          [right; auto | left; lia]. }
      rewrite Forall_forall in Hall, Hbefore' |- *. intros z Hz.
      specialize (Hall z Hz). specialize (Hbefore' z Hz). simpl in Hall.
      destruct (Nat.eq_dec (weight x) (weight z)); [right; auto | left; lia].
Qed.

(** Sorting a list orders it by descending weight and keeps the elements
    of equal weight in the order they had. *)
Lemma Array_sort_sorted (l : list A) :
  Forall P l -> StronglySorted before l ->
  StronglySorted heavierOrBefore (Array_sort comparefn l).
Proof.
  intros HP Hs. induction Hs as [|x l Hs IH Hall]; simpl; [constructor|].
  inversion HP as [|? ? Hx HP']; subst.
  apply sortInsert_sorted.
  - exact Hx.
  - eapply Permutation_Forall;
      [symmetry; apply Array_sort_Permutation | exact HP'].
  - eapply Permutation_Forall;
      [symmetry; apply Array_sort_Permutation | exact Hall].
  - apply IH, HP'.
Qed.

End StableSort.

(* ================================================================= *)
(** * The frequency table *)

Lemma existsb_streq (w : jsstring) (l : list jsstring) :
  existsb (streq w) l = true <-> In w l.
Proof.
  rewrite existsb_exists. split.
  - intros [x [Hx H]]. apply streq_eq in H. subst. exact Hx.
  - intros H. exists w. split; [exact H | apply streq_refl].
Qed.

Lemma distinct_snoc (l : list jsstring) (w : jsstring) :
  distinct (l ++ [w])
  = if existsb (streq w) (distinct l) then distinct l else distinct l ++ [w].
Proof. unfold distinct. rewrite fold_left_app. reflexivity. Qed.

Lemma distinct_In (l : list jsstring) (k : jsstring) :
  In k (distinct l) <-> In k l.
Proof.
  revert k. induction l as [|w l IH] using rev_ind; intros k;
    [reflexivity|].
  rewrite distinct_snoc, in_app_iff. simpl.
  destruct (existsb (streq w) (distinct l)) eqn:E.
  - apply existsb_streq in E. rewrite IH in *.
    split; [tauto|]. intros [H | [<- | []]]; assumption.
  - rewrite in_app_iff, IH. simpl. tauto.
Qed.

Lemma distinct_NoDup (l : list jsstring) : NoDup (distinct l).
Proof.
  induction l as [|w l IH] using rev_ind; [constructor|].
  rewrite distinct_snoc.
  destruct (existsb (streq w) (distinct l)) eqn:E; [exact IH|].
  apply NoDup_app; [exact IH | repeat constructor; intros [] |].
  intros x Hx [<- | []].
  apply existsb_streq in Hx. congruence.
Qed.

Lemma firstPos_app_l (k w : jsstring) (l : list jsstring) :
  In k l -> firstPos k (l ++ [w]) = firstPos k l.
Proof.
  induction l as [|x l IH]; simpl; [tauto|].
  intros H. destruct (streq x k) eqn:E; [reflexivity|].
  destruct H as [-> | H]; [rewrite streq_refl in E; discriminate|].
  rewrite IH by exact H. reflexivity.
Qed.

Lemma firstPos_absent (k : jsstring) (l l' : list jsstring) :
  ~ In k l -> firstPos k (l ++ l') = List.length l + firstPos k l'.
Proof.
  induction l as [|x l IH]; simpl; [reflexivity|].
  intros H. destruct (streq x k) eqn:E.
  - apply streq_eq in E. tauto.
  - rewrite IH by tauto. reflexivity.
Qed.

Lemma firstPos_present (k : jsstring) (l : list jsstring) :
  In k l -> firstPos k l < List.length l.
Proof.
  induction l as [|x l IH]; simpl; [tauto|].
  intros H. destruct (streq x k) eqn:E; [lia|].
  destruct H as [-> | H]; [rewrite streq_refl in E; discriminate|].
  specialize (IH H). lia.
Qed.

(** The distinct words come in the order of their first occurrence. *)
Lemma distinct_sorted (l : list jsstring) :
  StronglySorted (firstOccurrenceBefore l) (distinct l).
Proof.
  unfold firstOccurrenceBefore.
  induction l as [|w l IH] using rev_ind; [constructor|].
  rewrite distinct_snoc.
  assert (Hold : StronglySorted
                   (fun a b => firstPos a (l ++ [w]) < firstPos b (l ++ [w]))
                   (distinct l)).
  { apply (StronglySorted_weaken
             (fun a b => firstPos a l < firstPos b l)); [|exact IH].
    intros a b Ha Hb Hab. rewrite distinct_In in Ha, Hb.
    rewrite (firstPos_app_l a w l Ha), (firstPos_app_l b w l Hb).
    exact Hab. }
  destruct (existsb (streq w) (distinct l)) eqn:E; [exact Hold|].
  apply StronglySorted_app; [exact Hold | repeat constructor |].
  intros a b Ha [<- | []]. rewrite distinct_In in Ha.
  rewrite (firstPos_app_l a w l Ha).
  assert (Hw : ~ In w l).
  { rewrite <- distinct_In, <- existsb_streq. congruence. }
  rewrite (firstPos_absent w l [w] Hw). simpl. rewrite streq_refl.
  pose proof (firstPos_present a l Ha). lia.
Qed.

Lemma occurrences_snoc (k w : jsstring) (l : list jsstring) :
  occurrences k (l ++ [w])
  = occurrences k l + (if streq k w then 1 else 0).
Proof.
  unfold occurrences. rewrite filter_app, length_app. simpl.
  destruct (streq k w); reflexivity.
Qed.

Lemma occurrences_absent (k : jsstring) (l : list jsstring) :
  ~ In k l -> occurrences k l = 0.
Proof.
  unfold occurrences. induction l as [|x l IH]; simpl; [reflexivity|].
  intros H. destruct (streq k x) eqn:E.
  - apply streq_eq in E. subst. tauto.
  - apply IH. tauto.
Qed.

Lemma occurrences_present (k : jsstring) (l : list jsstring) :
  In k l -> 0 < occurrences k l.
Proof.
  unfold occurrences. induction l as [|x l IH]; simpl; [tauto|].
  intros H. destruct (streq k x) eqn:E; [simpl; lia|].
  destruct H as [-> | H]; [rewrite streq_refl in E; discriminate|].
  apply IH, H.
Qed.

Section Tables.

Variable F : jsstring -> jsval.

Lemma assoc_table (ks : list jsstring) (w : jsstring) :
  assoc (map (fun k => (k, F k)) ks) w
  = if existsb (streq w) ks then Some (F w) else None.
Proof.
  induction ks as [|k ks IH]; simpl; [reflexivity|].
  rewrite (streq_sym w k). destruct (streq k w) eqn:E; simpl.
  - apply streq_eq in E. subst. reflexivity.
  - exact IH.
Qed.

Lemma putOwn_new (ks : list jsstring) (w : jsstring) (v : jsval) :
  existsb (streq w) ks = false ->
  putOwn (map (fun k => (k, F k)) ks) w v
  = map (fun k => (k, F k)) ks ++ [(w, v)].
Proof.
  induction ks as [|k ks IH]; simpl; [reflexivity|].
  rewrite (streq_sym w k). intros H. apply orb_false_iff in H as [Hk Hks].
  rewrite Hk, (IH Hks). reflexivity.
Qed.

Lemma putOwn_old (ks : list jsstring) (w : jsstring) (v : jsval) :
  NoDup ks -> In w ks ->
  putOwn (map (fun k => (k, F k)) ks) w v
  = map (fun k => (k, if streq k w then v else F k)) ks.
Proof.
  induction ks as [|k ks IH]; simpl; [tauto|].
  intros Hnd Hin. inversion Hnd as [|? ? Hnotin Hnd']; subst.
  destruct (streq k w) eqn:E.
  - apply streq_eq in E. subst. f_equal.
    apply map_ext_in. intros k Hk.
    destruct (streq k w) eqn:E; [|reflexivity].
    apply streq_eq in E. subst. tauto.
  - f_equal. apply IH; [exact Hnd'|].
    destruct Hin as [-> | Hin]; [rewrite streq_refl in E; discriminate|].
    exact Hin.
Qed.

End Tables.

Lemma inherits_proto (w : jsstring) :
  inherits w = false -> streq w (lit "__proto__") = false.
Proof.
  intros H. destruct (streq w (lit "__proto__")) eqn:E; [|reflexivity].
  apply streq_eq in E. subst. vm_compute in H. discriminate.
Qed.

(** Counting one more word that is not an inherited name extends the
    frequency table. *)
Lemma countClean_frequencyTable (l : list jsstring) (w : jsstring) :
  inherits w = false ->
  countClean (frequencyTable l) w = frequencyTable (l ++ [w]).
Proof.
  intros Hw. unfold countClean, Put, Get.
  rewrite (inherits_proto w Hw).
  unfold inherits in Hw.
  destruct (assoc Object_prototype w); [discriminate|]. clear Hw.
  unfold frequencyTable. rewrite assoc_table, distinct_snoc.
  destruct (existsb (streq w) (distinct l)) eqn:E.
  - simpl orZeroPlusOne.
    rewrite putOwn_old;
      [|apply distinct_NoDup | apply existsb_streq; exact E].
    apply map_ext. intros k. rewrite occurrences_snoc.
    destruct (streq k w) eqn:Ek.
    + apply streq_eq in Ek. subst. do 2 f_equal. lia.
    + rewrite Nat.add_0_r. reflexivity.
  - simpl orZeroPlusOne. rewrite putOwn_new by exact E.
    rewrite map_app. simpl. f_equal.
    + apply map_ext_in. intros k Hk. rewrite occurrences_snoc.
      destruct (streq k w) eqn:Ek.
      * apply streq_eq in Ek. subst.
        apply existsb_streq in Hk. congruence.
      * rewrite Nat.add_0_r. reflexivity.
    + rewrite occurrences_snoc, streq_refl, occurrences_absent.
      * reflexivity.
      * rewrite <- distinct_In, <- existsb_streq. congruence.
Qed.

Lemma fold_countClean (l : list jsstring) :
  (forall w, In w l -> inherits w = false) ->
  fold_left countClean l [] = frequencyTable l.
Proof.
  induction l as [|w l IH] using rev_ind; intros Hl; [reflexivity|].
  rewrite fold_left_app. simpl. rewrite IH.
  - apply countClean_frequencyTable. apply Hl, in_or_app. right. left.
    reflexivity.
  - intros k Hk. apply Hl, in_or_app. left. exact Hk.
Qed.

Lemma fold_countWord (ws : list jsstring) (o : jsobject) :
  fold_left countWord ws o
  = fold_left countClean
      (filter (fun w => 3 <? jslength w) (map stripNonWord ws)) o.
Proof.
  revert o. induction ws as [|w ws IH]; intros o; simpl; [reflexivity|].
  rewrite IH. unfold countWord.
  destruct (3 <? jslength (stripNonWord w)); reflexivity.
Qed.

(** [wordCount] is the frequency table of the cleaned words, unless one of
    them is an inherited name. *)
Lemma wordCount_frequencyTable (toLowerCase : jsstring -> jsstring)
    (text : jsstring) :
  (forall w, In w (cleanWords toLowerCase text) -> inherits w = false) ->
  wordCount toLowerCase text
  = frequencyTable (cleanWords toLowerCase text).
Proof.
  intros H. unfold wordCount. rewrite fold_countWord.
  apply fold_countClean. exact H.
Qed.

(* ================================================================= *)
(** * The order of the entries of an object *)

Lemma arrayIndex_decimal (k : jsstring) (i : N) :
  arrayIndex k = Some i -> k = decimal i.
Proof.
  unfold arrayIndex.
  destruct (forallb isDigit k); simpl; [|discriminate].
  destruct (streq (decimal (digitsValue k)) k) eqn:E; simpl; [|discriminate].
  destruct (N.ltb (digitsValue k) 4294967295); [|discriminate].
  intros H. injection H as <-. apply streq_eq in E. symmetry. exact E.
Qed.

Lemma indexedEntries_index (o : jsobject) :
  Forall (fun ie => arrayIndex (fst (snd ie)) = Some (fst ie))
    (indexedEntries o).
Proof.
  induction o as [|e o IH]; simpl; [constructor|].
  destruct (arrayIndex (fst e)) eqn:E; [constructor; assumption | exact IH].
Qed.

Lemma indexedEntries_entries (o : jsobject) :
  map snd (indexedEntries o) = filter (fun e => negb (isNamed e)) o.
Proof.
  induction o as [|e o IH]; simpl; [reflexivity|].
  unfold isNamed at 1. destruct (arrayIndex (fst e)); simpl; congruence.
Qed.

Lemma insertIndexed_Permutation e l :
  Permutation (insertIndexed e l) (e :: l).
Proof.
  induction l as [|e' l IH]; simpl; [reflexivity|].
  destruct (N.leb (fst e) (fst e')); [reflexivity|].
  rewrite IH. apply perm_swap.
Qed.

Lemma sortIndexed_Permutation l :
  Permutation (fold_right insertIndexed [] l) l.
Proof.
  induction l as [|e l IH]; simpl; [reflexivity|].
  rewrite insertIndexed_Permutation. constructor. exact IH.
Qed.

Lemma insertIndexed_sorted e l :
  StronglySorted (fun a b => (fst a <= fst b)%N) l ->
  StronglySorted (fun a b => (fst a <= fst b)%N) (insertIndexed e l).
Proof.
  intros Hs. induction Hs as [|e' l Hs IH Hall]; simpl.
  - repeat constructor.
  - destruct (N.leb_spec (fst e) (fst e')) as [Hle | Hgt].
    + constructor; [constructor; assumption|].
      constructor; [exact Hle|].
      rewrite Forall_forall in Hall |- *. intros z Hz.
      specialize (Hall z Hz). lia.
    + constructor; [exact IH|].
      eapply Permutation_Forall;
        [symmetry; apply insertIndexed_Permutation|].
      constructor; [lia | exact Hall].
Qed.

Lemma sortIndexed_sorted l :
  StronglySorted (fun a b => (fst a <= fst b)%N)
    (fold_right insertIndexed [] l).
Proof.
  induction l as [|e l IH]; simpl; [constructor|].
  apply insertIndexed_sorted, IH.
Qed.

Lemma filter_negb_Permutation {A : Type} (f : A -> bool) (l : list A) :
  Permutation (filter (fun x => negb (f x)) l ++ filter f l) l.
Proof.
  induction l as [|x l IH]; simpl; [reflexivity|].
  destruct (f x); simpl.
  - rewrite <- Permutation_middle. constructor. exact IH.
  - constructor. exact IH.
Qed.

Lemma Object_entries_Permutation (o : jsobject) :
  Permutation (Object_entries o) o.
Proof.
  unfold Object_entries.
  rewrite (Permutation_map snd (sortIndexed_Permutation (indexedEntries o))).
  rewrite indexedEntries_entries. apply filter_negb_Permutation.
Qed.

(** The entries of an object whose keys were created in the order [before]
    come in key order: array indices by value, then the other keys in
    [before] order. *)
Lemma Object_entries_sorted (cw : list jsstring) (o : jsobject) :
  NoDup (map fst o) ->
  StronglySorted (firstOccurrenceBefore cw) (map fst o) ->
  StronglySorted (fun x y => keyBefore cw (fst x) (fst y))
    (Object_entries o).
Proof.
  intros Hnd Hs. unfold Object_entries.
  pose proof (sortIndexed_Permutation (indexedEntries o)) as Hperm.
  set (sorted := fold_right insertIndexed [] (indexedEntries o)) in *.
  assert (Hidx : Forall (fun ie => arrayIndex (fst (snd ie)) = Some (fst ie))
                   sorted).
  { eapply Permutation_Forall;
      [symmetry; exact Hperm | apply indexedEntries_index]. }
  rewrite Forall_forall in Hidx.
  apply StronglySorted_app.
  - apply StronglySorted_map.
    assert (Hkeys : NoDup (map (fun ie => fst (snd ie)) sorted)).
    { rewrite <- (map_map snd fst).
      rewrite (Permutation_map snd Hperm), indexedEntries_entries.
      clear - Hnd. induction o as [|e o IH]; simpl; [constructor|].
      simpl in Hnd. inversion Hnd as [|? ? Hnotin Hnd']; subst.
      destruct (negb (isNamed e)); [|apply IH, Hnd'].
      simpl. constructor; [|apply IH, Hnd'].
      intros Hin. apply Hnotin. apply in_map_iff in Hin as [x [Hx Hin]].
      apply filter_In in Hin as [Hin _]. rewrite <- Hx. apply in_map, Hin. }
    apply (StronglySorted_weaken
             (fun x y => (fst x <= fst y)%N
                         /\ fst (snd x) <> fst (snd y))).
    + intros a b Ha Hb [Hle Hne]. unfold keyBefore.
      rewrite (Hidx a Ha), (Hidx b Hb).
      destruct (N.eq_dec (fst a) (fst b)) as [Heq | Hneq]; [|lia].
      exfalso. apply Hne.
      rewrite (arrayIndex_decimal _ _ (Hidx a Ha)),
        (arrayIndex_decimal _ _ (Hidx b Hb)), Heq.
      reflexivity.
    + apply StronglySorted_distinct; [exact Hkeys|].
      apply sortIndexed_sorted.
  - apply (StronglySorted_weaken
             (fun x y => firstOccurrenceBefore cw (fst x) (fst y))).
    + intros a b Ha Hb Hab. apply filter_In in Ha as [_ Ha], Hb as [_ Hb].
      unfold isNamed in Ha, Hb. unfold keyBefore.
      destruct (arrayIndex (fst a)); [discriminate|].
      destruct (arrayIndex (fst b)); [discriminate|].
      exact Hab.
    + apply StronglySorted_filter, StronglySorted_unmap. exact Hs.
  - intros a b Ha Hb. apply in_map_iff in Ha as [ia [<- Ha]].
    apply filter_In in Hb as [_ Hb]. unfold isNamed in Hb.
    unfold keyBefore. rewrite (Hidx ia Ha).
    destruct (arrayIndex (fst b)); [discriminate | exact I].
Qed.

(* ================================================================= *)
(** * The ranking of the keywords *)

Lemma frequencyTable_keys (l : list jsstring) :
  map fst (frequencyTable l) = distinct l.
Proof. unfold frequencyTable. rewrite map_map. apply map_id. Qed.

Lemma frequencyTable_In (l : list jsstring) (k : jsstring) (v : jsval) :
  In (k, v) (frequencyTable l) <->
  In k l /\ v = JNum (N.of_nat (occurrences k l)).
Proof.
  unfold frequencyTable. rewrite in_map_iff. split.
  - intros [k' [H Hk']]. injection H as -> <-.
    split; [apply distinct_In; exact Hk' | reflexivity].
  - intros [Hk ->]. exists k. split; [reflexivity|].
    apply distinct_In. exact Hk.
Qed.

(** On entries that hold counts the comparator of [keywords] compares the
    counts. *)
Lemma comparefn_counts (cw : list jsstring) (x y : jsstring * jsval) :
  snd x = JNum (N.of_nat (occurrences (fst x) cw)) ->
  snd y = JNum (N.of_nat (occurrences (fst y) cw)) ->
  (0 <? sortCompare (fun x y => minus (snd y) (snd x)) x y)%Z
  = (occurrences (fst x) cw <? occurrences (fst y) cw).
Proof.
  intros Hx Hy. unfold sortCompare, minus. rewrite Hx, Hy. simpl.
  destruct (Nat.ltb_spec (occurrences (fst x) cw) (occurrences (fst y) cw));
    [apply Z.ltb_lt | apply Z.ltb_ge]; lia.
Qed.

Lemma keyBefore_asym (cw : list jsstring) (a b : jsstring) :
  keyBefore cw a b -> keyBefore cw b a -> False.
Proof.
  unfold keyBefore.
  destruct (arrayIndex a), (arrayIndex b); try tauto; lia.
Qed.

(** Two rankings of the same words by an asymmetric order are the same
    list. *)
Lemma ranking_unique (R : jsstring -> jsstring -> Prop)
    (l1 l2 : list jsstring) :
  (forall a b, R a b -> R b a -> False) ->
  NoDup l1 -> NoDup l2 -> (forall w, In w l1 <-> In w l2) ->
  StronglySorted R l1 -> StronglySorted R l2 -> l1 = l2.
Proof.
  intros Hasym. revert l2.
  induction l1 as [|a l1 IH]; intros l2 Hnd1 Hnd2 Hsame Hs1 Hs2.
  - destruct l2 as [|b l2]; [reflexivity|].
    exfalso. apply (proj2 (Hsame b)). left. reflexivity.
  - destruct l2 as [|b l2].
    { exfalso. apply (proj1 (Hsame a)). left. reflexivity. }
    inversion Hnd1 as [|? ? Hna Hnd1']; subst.
    inversion Hnd2 as [|? ? Hnb Hnd2']; subst.
    inversion Hs1 as [|? ? Hs1' Hall1]; subst.
    inversion Hs2 as [|? ? Hs2' Hall2]; subst.
    rewrite Forall_forall in Hall1, Hall2.
    assert (Hab : a = b).
    { destruct (proj1 (Hsame a) (or_introl eq_refl)) as [Hba | Ha2];
        [symmetry; exact Hba|].
      destruct (proj2 (Hsame b) (or_introl eq_refl)) as [Hab | Hb1];
        [exact Hab|].
      exfalso. apply (Hasym a b); [apply Hall1, Hb1 | apply Hall2, Ha2]. }
    subst b. f_equal. apply IH; try assumption.
    intros w. split; intros Hw.
    + destruct (proj1 (Hsame w) (or_intror Hw)) as [<- | H];
        [contradiction | exact H].
    + destruct (proj2 (Hsame w) (or_intror Hw)) as [<- | H];
        [contradiction | exact H].
Qed.

Section Ranking.

Variable toLowerCase : jsstring -> jsstring.
Variable text : jsstring.

Hypothesis no_inherited_name :
  forall w, In w (cleanWords toLowerCase text) -> inherits w = false.

Lemma keywords_TopTen :
  TopTen (keyBefore (cleanWords toLowerCase text))
    (cleanWords toLowerCase text) (keywords toLowerCase text).
Proof.
  unfold keywords.
  rewrite (wordCount_frequencyTable toLowerCase text no_inherited_name).
  set (cw := cleanWords toLowerCase text).
  set (entries := Object_entries (frequencyTable cw)).
  set (comparefn := fun x y : jsstring * jsval => minus (snd y) (snd x)).
  assert (Hperm : Permutation (Array_sort comparefn entries)
                    (frequencyTable cw)).
  { rewrite Array_sort_Permutation. apply Object_entries_Permutation. }
  assert (Hkeys : Permutation (map fst (Array_sort comparefn entries))
                    (distinct cw)).
  { rewrite (Permutation_map fst Hperm). rewrite frequencyTable_keys.
    reflexivity. }
  exists (map fst (Array_sort comparefn entries)).
  split; [symmetry; apply firstn_map|].
  split.
  { eapply Permutation_NoDup; [symmetry; exact Hkeys|].
    apply distinct_NoDup. }
  split.
  { intros w. rewrite <- (distinct_In cw w). split; intros Hw.
    - eapply Permutation_in; [exact Hkeys | exact Hw].
    - eapply Permutation_in; [symmetry; exact Hkeys | exact Hw]. }
  apply StronglySorted_map. unfold rankedBefore.
  apply (Array_sort_sorted comparefn
           (fun e => snd e = JNum (N.of_nat (occurrences (fst e) cw)))
           (fun e => occurrences (fst e) cw)
           (fun x y => keyBefore cw (fst x) (fst y))).
  - intros x y Hx Hy. apply comparefn_counts; assumption.
  - apply Forall_forall. intros [k v] He.
    apply (Permutation_in _ (Object_entries_Permutation _)) in He.
    apply frequencyTable_In in He as [_ ->]. reflexivity.
  - apply Object_entries_sorted; rewrite frequencyTable_keys.
    + apply distinct_NoDup.
    + apply distinct_sorted.
Qed.

End Ranking.

Lemma TopTen_without_indices (cw ks : list jsstring) :
  (forall w, In w cw -> arrayIndex w = None) ->
  TopTen (keyBefore cw) cw ks -> TopTen (firstOccurrenceBefore cw) cw ks.
Proof.
  intros Hnone [ranking [Hks [Hnd [Hin Hs]]]].
  exists ranking. repeat split; try assumption; try apply Hin; auto.
  apply (StronglySorted_weaken (rankedBefore (keyBefore cw) cw));
    [|exact Hs].
  intros a b Ha Hb. apply Hin in Ha, Hb.
  unfold rankedBefore, keyBefore, firstOccurrenceBefore.
  rewrite (Hnone a Ha), (Hnone b Hb). auto.
Qed.

Lemma TopTen_unique (cw ks ks' : list jsstring) :
  TopTen (keyBefore cw) cw ks -> TopTen (keyBefore cw) cw ks' -> ks = ks'.
Proof.
  intros [l [-> [Hnd [Hin Hs]]]] [l' [-> [Hnd' [Hin' Hs']]]].
  f_equal.
  apply (ranking_unique (rankedBefore (keyBefore cw) cw));
    try assumption.
  - unfold rankedBefore. intros a b [H1 | [H1 K1]] [H2 | [H2 K2]]; try lia.
    exact (keyBefore_asym cw a b K1 K2).
  - intros w. rewrite Hin, Hin'. reflexivity.
Qed.

(** C3, as the specification words it, fails.  In ["alpha 2024"] both
    words occur once and [alpha] comes first, yet [2024] is ranked first:
    an object lists its array-index keys before its other keys.  And a
    cleaned word that names the [__proto__] accessor never enters the
    table, however frequent it is. *)
Lemma keyword_tie_counterexample :
  cleanWords asciiLower (lit "alpha 2024") = [lit "alpha"; lit "2024"] /\
  keywords asciiLower (lit "alpha 2024") = [lit "2024"; lit "alpha"] /\
  ~ TopTen (firstOccurrenceBefore (cleanWords asciiLower (lit "alpha 2024")))
      (cleanWords asciiLower (lit "alpha 2024"))
      (keywords asciiLower (lit "alpha 2024")) /\
  cleanWords asciiLower (lit "__proto__ __proto__ alpha")
    = [lit "__proto__"; lit "__proto__"; lit "alpha"] /\
  keywords asciiLower (lit "__proto__ __proto__ alpha") = [lit "alpha"].
Proof.
  split; [vm_compute; reflexivity|].
  split; [vm_compute; reflexivity|].
  split; [|split; vm_compute; reflexivity].
  intros [ranking [Hks [_ [_ Hs]]]].
  replace (keywords asciiLower (lit "alpha 2024"))
    with [lit "2024"; lit "alpha"] in Hks by (vm_compute; reflexivity).
  destruct ranking as [|a [|b ranking]]; try discriminate.
  simpl in Hks. injection Hks as <- <- _.
  inversion Hs as [|? ? _ Hall]; subst.
  inversion Hall as [|? ? Hab _]; subst.
  vm_compute in Hab. lia.
Qed.

(** C3, amended.  For a transcript none of whose cleaned words is a
    property name that objects inherit (such as [constructor] or
    [__proto__]), [wordCount] is the frequency table of the cleaned words:
    lower-cased, split at white space, non-word characters stripped, more
    than 3 code units long.  The keywords are the top 10 of these words by
    descending frequency, ties broken by the key order of the table: words
    that are array indices (canonical decimal numerals below 2^32 - 1)
    first, in ascending numeric order, then the other words by first
    occurrence.  This determines the list: no other list answers the
    description.  When no cleaned word is an array index, ties are broken
    by first occurrence alone. *)
Theorem keyword_ranking :
  forall (toLowerCase : jsstring -> jsstring) (text : jsstring),
    (forall w, In w (cleanWords toLowerCase text) -> inherits w = false) ->
    (forall w v,
        In (w, v) (wordCount toLowerCase text) <->
        In w (cleanWords toLowerCase text) /\
        v = JNum (N.of_nat (occurrences w (cleanWords toLowerCase text)))) /\
    TopTen (keyBefore (cleanWords toLowerCase text))
      (cleanWords toLowerCase text) (keywords toLowerCase text) /\
    List.length (keywords toLowerCase text) <= 10 /\
    (forall ks,
        TopTen (keyBefore (cleanWords toLowerCase text))
          (cleanWords toLowerCase text) ks ->
        ks = keywords toLowerCase text) /\
    ((forall w, In w (cleanWords toLowerCase text) -> arrayIndex w = None) ->
     TopTen (firstOccurrenceBefore (cleanWords toLowerCase text))
       (cleanWords toLowerCase text) (keywords toLowerCase text)).
Proof.
  intros toLowerCase text Hnames.
  pose proof (keywords_TopTen toLowerCase text Hnames) as Htop.
  split.
  { intros w v. rewrite (wordCount_frequencyTable toLowerCase text Hnames).
    apply frequencyTable_In. }
  split; [exact Htop|].
  split.
  { unfold keywords. rewrite length_map. apply firstn_le_length. }
  split.
  { intros ks Hks. exact (TopTen_unique _ _ _ Hks Htop). }
  intros Hnone. apply TopTen_without_indices; assumption.
Qed.

Lemma keyword_ranking_witness :
  TopTen (keyBefore (cleanWords asciiLower (lit "beta 2024 alpha beta")))
    (cleanWords asciiLower (lit "beta 2024 alpha beta"))
    (keywords asciiLower (lit "beta 2024 alpha beta")) /\
  keywords asciiLower (lit "beta 2024 alpha beta")
  = [lit "beta"; lit "2024"; lit "alpha"].
Proof.
  split; [|vm_compute; reflexivity].
  apply (keyword_ranking asciiLower (lit "beta 2024 alpha beta")).
  intros w Hw. vm_compute in Hw.
  destruct Hw as [<- | [<- | [<- | [<- | []]]]]; vm_compute; reflexivity.
Defined.

(* ================================================================= *)
(** * The collection under the routes *)

Lemma save_Returns (db db' : Db) (now : N) (i text : jsstring)
    (prompt : option jsstring) (generated : jsstring) :
  save db now i text prompt generated = Returns db' ->
  i <> [] /\ text <> [] /\ generated <> [] /\ connected db = true /\
  existsb (hasId i) (documents db) = false /\
  db' = {| connected := connected db;
           documents := documents db ++
             [ {| id := i; originalText := text; customPrompt := prompt;
                  generatedSummary := generated; editedSummary := None;
                  createdAt := now |} ] |}.
Proof.
  unfold save.
  destruct i as [|ci i]; [discriminate|].
  destruct text as [|ct text]; [discriminate|].
  destruct generated as [|cg generated]; [discriminate|].
  simpl. destruct (connected db); simpl; [|discriminate].
  destruct (existsb (hasId (ci :: i)) (documents db)); [discriminate|].
  intros H. injection H as <-.
  repeat split; discriminate.
Qed.

Lemma find_appended (i : jsstring) (docs : list SummaryRecord)
    (r : SummaryRecord) :
  existsb (hasId i) docs = false -> hasId i r = true ->
  find (hasId i) (docs ++ [r]) = Some r.
Proof.
  intros Hnone Hr. induction docs as [|d docs IH]; simpl.
  - rewrite Hr. reflexivity.
  - simpl in Hnone. apply orb_false_iff in Hnone as [Hd Hdocs].
    rewrite Hd. apply IH, Hdocs.
Qed.

Lemma find_hasId (i : jsstring) (docs : list SummaryRecord) :
  existsb (hasId i) docs = false <-> find (hasId i) docs = None.
Proof.
  induction docs as [|d docs IH]; simpl; [tauto|].
  destruct (hasId i d); simpl; [split; discriminate | exact IH].
Qed.

Section CreateFacts.

Variable toLowerCase : jsstring -> jsstring.
Variable env : Env.
Variable axios_post : Remote.

(** The two ways [POST /api/summarize] ends: with 200, a summary and one
    more record, or with another status and the collection untouched. *)
Lemma post_summarize_cases uuid now db text prompt :
  (exists t s,
      text = Some t /\ jslength (trim t) <> 0 /\
      generateSummaryWithFreeAI toLowerCase env axios_post t prompt
      = Returns s /\
      save db now uuid t prompt s
      = Returns (snd (post_summarize toLowerCase env axios_post uuid now db
                        text prompt)) /\
      fst (post_summarize toLowerCase env axios_post uuid now db text prompt)
      = {| status := 200;
           body := SummaryBody uuid s
                     (lit "Summary generated successfully (using free AI)") |})
  \/
  (status (fst (post_summarize toLowerCase env axios_post uuid now db
                  text prompt)) <> 200 /\
   snd (post_summarize toLowerCase env axios_post uuid now db text prompt)
   = db).
Proof.
  unfold post_summarize.
  destruct text as [[|c t]|]; try (right; simpl; split; [lia | reflexivity]).
  destruct (jslength (trim (c :: t)) =? 0) eqn:Elen;
    [right; simpl; split; [lia | reflexivity]|].
  destruct (generateSummaryWithFreeAI_returns toLowerCase env axios_post
              (c :: t) prompt) as [s Hs].
  rewrite Hs. simpl bind.
  destruct (save db now uuid (c :: t) prompt s) as [db'|e] eqn:Esave; simpl.
  - left. exists (c :: t), s. apply Nat.eqb_neq in Elen. auto 6.
  - right. split; [lia | reflexivity].
Qed.

End CreateFacts.

(** X1.  A record created by [POST /api/summarize] is the one
    [GET /api/summaries/:id] returns for the id of the answer: it holds the
    transcript and the prompt of the request, the summary of the answer, no
    edited summary, and the time of creation. *)
Theorem create_then_fetch :
  forall (toLowerCase : jsstring -> jsstring) (env : Env)
         (axios_post : Remote) (uuid : jsstring) (now : N) (db : Db)
         (text prompt : option jsstring),
    status (fst (post_summarize toLowerCase env axios_post uuid now db
                   text prompt)) = 200 ->
    exists t s,
      text = Some t /\ s <> [] /\
      body (fst (post_summarize toLowerCase env axios_post uuid now db
                   text prompt))
      = SummaryBody uuid s
          (lit "Summary generated successfully (using free AI)") /\
      get_summary
        (snd (post_summarize toLowerCase env axios_post uuid now db
                text prompt)) uuid
      = {| code := 200;
           json := JsonRecord
                     {| id := uuid; originalText := t; customPrompt := prompt;
                        generatedSummary := s; editedSummary := None;
                        createdAt := now |} |}.
Proof.
  intros toLowerCase env axios_post uuid now db text prompt Hok.
  destruct (post_summarize_cases toLowerCase env axios_post uuid now db
              text prompt) as [[t [s [Ht [_ [_ [Hsave Hfst]]]]]] | [Hno _]];
    [|congruence].
  exists t, s.
  apply save_Returns in Hsave as [_ [_ [Hs [Hconn [Hfresh Hdb]]]]].
  split; [exact Ht|]. split; [exact Hs|].
  split; [rewrite Hfst; reflexivity|].
  rewrite Hdb. unfold get_summary, findOne. simpl. rewrite Hconn. simpl.
  rewrite find_appended; [reflexivity | exact Hfresh |].
  unfold hasId. simpl. apply streq_refl.
Qed.

Lemma create_then_fetch_witness :
  get_summary
    (snd (post_summarize asciiLower {| HUGGINGFACE_API_KEY := None |}
            (fun _ _ => Returns None) (lit "b2") 1700000000001 sampleDb
            (Some (lit "We will ship the release on Friday.")) None))
    (lit "b2")
  = {| code := 200;
       json := JsonRecord
                 {| id := lit "b2";
                    originalText := lit "We will ship the release on Friday.";
                    customPrompt := None;
                    generatedSummary :=
                      lit "We will ship the release on Friday";
                    editedSummary := None; createdAt := 1700000000001 |} |}.
Proof.
  destruct (create_then_fetch asciiLower {| HUGGINGFACE_API_KEY := None |}
              (fun _ _ => Returns None) (lit "b2") 1700000000001 sampleDb
              (Some (lit "We will ship the release on Friday.")) None
              eq_refl) as [t [s [Ht [_ [Hbody Hget]]]]].
  injection Ht as <-. rewrite Hget.
  vm_compute in Hbody. injection Hbody as <-. reflexivity.
Defined.

(** X2.  [POST /api/summarize] is all or nothing on the collection: an
    answer other than 200 leaves it as it was, and a 200 appends exactly
    one record, under an id no record had. *)
Theorem create_all_or_nothing :
  forall (toLowerCase : jsstring -> jsstring) (env : Env)
         (axios_post : Remote) (uuid : jsstring) (now : N) (db : Db)
         (text prompt : option jsstring),
    (status (fst (post_summarize toLowerCase env axios_post uuid now db
                    text prompt)) <> 200 ->
     snd (post_summarize toLowerCase env axios_post uuid now db text prompt)
     = db) /\
    (status (fst (post_summarize toLowerCase env axios_post uuid now db
                    text prompt)) = 200 ->
     exists r,
       documents (snd (post_summarize toLowerCase env axios_post uuid now db
                         text prompt))
       = documents db ++ [r] /\
       id r = uuid /\ ~ In uuid (map id (documents db))).
Proof.
  intros toLowerCase env axios_post uuid now db text prompt.
  destruct (post_summarize_cases toLowerCase env axios_post uuid now db
              text prompt) as [[t [s [_ [_ [_ [Hsave Hfst]]]]]] | [Hno Hdb]].
  - split; [rewrite Hfst; simpl; congruence|]. intros _.
    apply save_Returns in Hsave as [_ [_ [_ [_ [Hfresh Hdb]]]]].
    rewrite Hdb. simpl. eexists. split; [reflexivity|].
    split; [reflexivity|].
    intros Hin. apply in_map_iff in Hin as [r [Hid Hr]].
    assert (Hex : existsb (hasId uuid) (documents db) = true).
    { apply existsb_exists. exists r. split; [exact Hr|].
      apply streq_eq. exact Hid. }
    congruence.
  - split; [intros _; exact Hdb | congruence].
Qed.

Lemma create_all_or_nothing_witness :
  snd (post_summarize asciiLower {| HUGGINGFACE_API_KEY := None |}
         (fun _ _ => Returns None) (lit "a1") 1700000000001 sampleDb
         (Some (lit "We will ship the release on Friday.")) None)
  = sampleDb.
Proof.
  apply (proj1 (create_all_or_nothing asciiLower
           {| HUGGINGFACE_API_KEY := None |} (fun _ _ => Returns None)
           (lit "a1") 1700000000001 sampleDb
           (Some (lit "We will ship the release on Friday.")) None)).
  vm_compute. discriminate.
Defined.

Lemma put_summaries_cases (db : Db) (i : jsstring)
    (edited : option jsstring) :
  snd (put_summaries db i edited) = db \/
  exists e r docs',
    updateFirst i e (documents db) = Some (r, docs') /\
    snd (put_summaries db i edited)
    = {| connected := connected db; documents := docs' |}.
Proof.
  unfold put_summaries, findOneAndUpdate.
  destruct edited as [[|c e]|]; [left; reflexivity | | left; reflexivity].
  destruct (connected db); simpl; [|left; reflexivity].
  destruct (updateFirst i (c :: e) (documents db)) as [[r docs']|] eqn:E;
    simpl; [|left; reflexivity].
  right. exists (c :: e), r, docs'. auto.
Qed.

Lemma updateFirst_wellFormed (i e : jsstring) (db : Db)
    (r : SummaryRecord) (docs' : list SummaryRecord) :
  updateFirst i e (documents db) = Some (r, docs') ->
  wellFormed db ->
  wellFormed {| connected := connected db; documents := docs' |}.
Proof.
  intros Hup [Hnd Hall].
  destruct (updateFirst_frame i e (documents db) docs' r Hup) as [HF _].
  unfold wellFormed. simpl.
  assert (Hids : map id docs' = map id (documents db)).
  { clear - HF. induction HF as [|a b l l' Hab HF IH]; [reflexivity|].
    simpl. rewrite IH. f_equal.
    destruct Hab as [-> | [_ [[Hid _] _]]]; [reflexivity | exact Hid]. }
  split; [rewrite Hids; exact Hnd|].
  clear - HF Hall. induction HF as [|a b l l' Hab HF IH]; [constructor|].
  inversion Hall as [|? ? Ha Hall']; subst. constructor; [|apply IH, Hall'].
  destruct Hab as [-> | [_ [[Hid [Htext [_ [Hgen _]]]] _]]]; [exact Ha|].
  rewrite Hid, Htext, Hgen. exact Ha.
Qed.

Lemma save_wellFormed (db db' : Db) (now : N) (i text : jsstring)
    (prompt : option jsstring) (generated : jsstring) :
  save db now i text prompt generated = Returns db' ->
  wellFormed db -> wellFormed db'.
Proof.
  intros Hsave [Hnd Hall].
  apply save_Returns in Hsave as [Hi [Ht [Hg [_ [Hfresh ->]]]]].
  unfold wellFormed. simpl. rewrite map_app. simpl. split.
  - apply NoDup_app; [exact Hnd | repeat constructor; intros [] |].
    intros x Hx [<- | []].
    apply in_map_iff in Hx as [r [Hid Hr]].
    assert (Hex : existsb (hasId i) (documents db) = true).
    { apply existsb_exists. exists r. split; [exact Hr|].
      apply streq_eq. exact Hid. }
    congruence.
  - apply Forall_app. split; [exact Hall|].
    constructor; [simpl; auto | constructor].
Qed.

Lemma completionSummary_not_empty (completion : Completion) :
  completionSummary completion <> [].
Proof.
  unfold completionSummary.
  destruct (choices completion) as [|choice rest]; [discriminate|].
  destruct (message choice) as [m|]; [|discriminate].
  destruct (content m) as [[|c s]|]; discriminate.
Qed.

(** The two ways [POST /api/summarize] of the Groq server ends. *)
Lemma groq_summarize_cases (groq_create : Groq) uuid now db text prompt :
  (exists t completion,
      text = Some t /\
      groq_create (groqUserContent prompt t) = Done completion /\
      save db now uuid t prompt (completionSummary completion)
      = Returns (snd (groq_summarize groq_create uuid now db text prompt)) /\
      fst (groq_summarize groq_create uuid now db text prompt)
      = {| code := 200;
           json := JsonSummary uuid (completionSummary completion)
                     (lit "Summary generated successfully") |})
  \/
  (code (fst (groq_summarize groq_create uuid now db text prompt)) <> 200 /\
   snd (groq_summarize groq_create uuid now db text prompt) = db).
Proof.
  unfold groq_summarize.
  destruct text as [[|c t]|]; try (right; simpl; split; [lia | reflexivity]).
  destruct (jslength (trim (c :: t)) =? 0);
    [right; simpl; split; [lia | reflexivity]|].
  destruct (groq_create (groqUserContent prompt (c :: t)))
    as [completion|f] eqn:Ecall;
    [|right; simpl; split; [lia | reflexivity]].
  destruct (save db now uuid (c :: t) prompt (completionSummary completion))
    as [db'|e] eqn:Esave; simpl.
  - left. exists (c :: t), completion. auto.
  - right. split; [lia | reflexivity].
Qed.

(** X3.  The routes keep the collection well formed: distinct ids, and no
    record with an empty [id], [originalText] or [generatedSummary].  This
    holds for the creation route of either server, whatever the remote
    service answers, and for the edit route. *)
Theorem routes_keep_collection_well_formed :
  forall (db : Db),
    wellFormed db ->
    (forall toLowerCase env axios_post uuid now text prompt,
        wellFormed (snd (post_summarize toLowerCase env axios_post uuid now
                           db text prompt))) /\
    (forall groq_create uuid now text prompt,
        wellFormed (snd (groq_summarize groq_create uuid now db
                           text prompt))) /\
    (forall i edited, wellFormed (snd (put_summaries db i edited))).
Proof.
  intros db Hwf. split; [|split].
  - intros toLowerCase env axios_post uuid now text prompt.
    destruct (post_summarize_cases toLowerCase env axios_post uuid now db
                text prompt) as [[t [s [_ [_ [_ [Hsave _]]]]]] | [_ ->]];
      [|exact Hwf].
    exact (save_wellFormed _ _ _ _ _ _ _ Hsave Hwf).
  - intros groq_create uuid now text prompt.
    destruct (groq_summarize_cases groq_create uuid now db text prompt)
      as [[t [completion [_ [_ [Hsave _]]]]] | [_ ->]]; [|exact Hwf].
    exact (save_wellFormed _ _ _ _ _ _ _ Hsave Hwf).
  - intros i edited.
    destruct (put_summaries_cases db i edited)
      as [-> | [e [r [docs' [Hup ->]]]]]; [exact Hwf|].
    exact (updateFirst_wellFormed i e db r docs' Hup Hwf).
Qed.

Lemma sampleDb_wellFormed : wellFormed sampleDb.
Proof.
  split; simpl.
  - constructor; [intros [] | constructor].
  - constructor; [|constructor]. repeat split; discriminate.
Qed.

Lemma routes_keep_collection_well_formed_witness :
  wellFormed (snd (put_summaries sampleDb (lit "a1") (Some (lit "Edited.")))).
Proof.
  apply (proj2 (proj2 (routes_keep_collection_well_formed sampleDb
                         sampleDb_wellFormed))).
Defined.

Lemma find_updateFirst (i e : jsstring) (docs docs' : list SummaryRecord)
    (r' : SummaryRecord) :
  updateFirst i e docs = Some (r', docs') ->
  find (hasId i) docs' = Some r' /\
  exists r, find (hasId i) docs = Some r /\ r' = setEditedSummary e r.
Proof.
  revert docs' r'. induction docs as [|d docs IH]; simpl; intros docs' r' H;
    [discriminate|].
  destruct (hasId i d) eqn:Hd.
  - injection H as <- <-. simpl.
    replace (hasId i (setEditedSummary e d)) with true
      by (symmetry; exact Hd).
    split; [reflexivity|]. exists d. auto.
  - destruct (updateFirst i e docs) as [[r1 docs1]|]; [|discriminate].
    injection H as <- <-. simpl. rewrite Hd. apply IH. reflexivity.
Qed.

(** X4.  After an edit that is answered with 200, [GET /api/summaries/:id]
    returns the record it returned before, with [editedSummary] set to the
    new value and every other field as it was. *)
Theorem edit_then_fetch :
  forall (db : Db) (i e : jsstring),
    status (fst (put_summaries db i (Some e))) = 200 ->
    exists r,
      get_summary db i = {| code := 200; json := JsonRecord r |} /\
      get_summary (snd (put_summaries db i (Some e))) i
      = {| code := 200;
           json := JsonRecord
                     {| id := id r; originalText := originalText r;
                        customPrompt := customPrompt r;
                        generatedSummary := generatedSummary r;
                        editedSummary := Some e;
                        createdAt := createdAt r |} |}.
Proof.
  intros db i e. unfold put_summaries, findOneAndUpdate, get_summary, findOne.
  destruct e as [|c e]; [simpl; discriminate|].
  destruct (connected db) eqn:Hconn; simpl; [|discriminate].
  destruct (updateFirst i (c :: e) (documents db)) as [[r' docs']|] eqn:Hup;
    simpl; [|discriminate].
  intros _.
  destruct (find_updateFirst i (c :: e) (documents db) docs' r' Hup)
    as [Hnew [r [Hold ->]]].
  exists r. rewrite Hold, Hnew. split; reflexivity.
Qed.

Lemma edit_then_fetch_witness :
  get_summary
    (snd (put_summaries sampleDb (lit "a1") (Some (lit "Edited.")))) (lit "a1")
  = {| code := 200;
       json := JsonRecord
                 {| id := lit "a1"; originalText := lit "Some transcript.";
                    customPrompt := None; generatedSummary := lit "Summary: ";
                    editedSummary := Some (lit "Edited.");
                    createdAt := 1700000000000 |} |}.
Proof.
  destruct (edit_then_fetch sampleDb (lit "a1") (lit "Edited.") eq_refl)
    as [r [Hold Hnew]].
  rewrite Hnew. vm_compute in Hold. injection Hold as <-. reflexivity.
Defined.

(** X5.  [GET /api/summaries/:id] answers 500 exactly when the database is
    out of reach, 404 exactly when it is reachable and no record has the
    id, and otherwise 200 with a record of the collection that has the
    id. *)
Theorem fetch_by_id :
  forall (db : Db) (i : jsstring),
    (code (get_summary db i) = 500 <-> connected db = false) /\
    (code (get_summary db i) = 404 <->
     connected db = true /\ ~ In i (map id (documents db))) /\
    (code (get_summary db i) = 200 <->
     exists r, json (get_summary db i) = JsonRecord r) /\
    (forall r, json (get_summary db i) = JsonRecord r ->
               In r (documents db) /\ id r = i).
Proof.
  intros db i. unfold get_summary, findOne.
  destruct (connected db); simpl.
  - destruct (find (hasId i) (documents db)) as [r|] eqn:Hfind; simpl.
    + apply find_some in Hfind as [Hin Hid]. apply streq_eq in Hid.
      split; [split; discriminate|].
      split.
      { split; [discriminate|]. intros [_ Hno]. exfalso. apply Hno.
        rewrite <- Hid. apply in_map, Hin. }
      split; [split; eauto|].
      intros r' H. injection H as <-. auto.
    + split; [split; discriminate|].
      split.
      { split; [|reflexivity]. intros _. split; [reflexivity|].
        intros Hin. apply in_map_iff in Hin as [r [Hid Hr]].
        apply (find_none _ _ Hfind) in Hr. unfold hasId in Hr.
        rewrite Hid, streq_refl in Hr. discriminate. }
      split; [split; [discriminate | intros [r H]; discriminate]|].
      intros r H. discriminate.
  - split; [split; reflexivity|].
    split; [split; [discriminate | intros [H _]; discriminate]|].
    split; [split; [discriminate | intros [r H]; discriminate]|].
    intros r H. discriminate.
Qed.



Lemma fetch_by_id_witness :
  In sampleRecord (documents sampleDb) /\ id sampleRecord = lit "a1".
Proof.
  apply (proj2 (proj2 (proj2 (fetch_by_id sampleDb (lit "a1"))))).
  reflexivity.
Defined.

(* ================================================================= *)
(** * The two tiers of the orchestrator *)

(** X7.  [generateSummaryWithFreeAI] never throws and never returns the
    empty string.  It returns the text of the remote service exactly when
    the credential is set and the service answers with a non-empty
    [summary_text]; in every other case it returns the local summary. *)
Theorem orchestrator_result :
  forall (toLowerCase : jsstring -> jsstring) (env : Env)
         (axios_post : Remote) (text : jsstring)
         (customPrompt : option jsstring),
    (exists s,
        generateSummaryWithFreeAI toLowerCase env axios_post text
          customPrompt = Returns s /\ s <> []) /\
    (forall key s,
        HUGGINGFACE_API_KEY env = Some key -> key <> [] ->
        axios_post (authorization key) (requestInputs customPrompt text)
        = Returns (Some s) -> s <> [] ->
        generateSummaryWithFreeAI toLowerCase env axios_post text
          customPrompt = Returns s) /\
    (remoteUnavailable env axios_post text customPrompt ->
     generateSummaryWithFreeAI toLowerCase env axios_post text customPrompt
     = Returns (generateSimpleSummary toLowerCase text customPrompt)) /\
    (remoteUnavailable env axios_post text customPrompt \/
     exists key s,
       HUGGINGFACE_API_KEY env = Some key /\ key <> [] /\ s <> [] /\
       axios_post (authorization key) (requestInputs customPrompt text)
       = Returns (Some s)).
Proof.
  intros toLowerCase env axios_post text customPrompt.
  unfold remoteUnavailable, generateSummaryWithFreeAI.
  pose proof (generateSimpleSummary_not_empty toLowerCase text customPrompt)
    as Hlocal.
  split; [|split; [|split]].
  - destruct (HUGGINGFACE_API_KEY env) as [[|c key]|]; simpl; eauto.
    destruct (axios_post _ _) as [[[|c' s]|]|e]; simpl; eauto.
    eexists. split; [reflexivity | discriminate].
  - intros key s -> Hkey Hcall Hs.
    destruct key as [|c key]; [congruence|].
    rewrite Hcall. destruct s as [|c' s]; [congruence | reflexivity].
  - destruct (HUGGINGFACE_API_KEY env) as [[|c key]|]; simpl; auto.
    destruct (axios_post _ _) as [[[|c' s]|]|e]; simpl; auto.
    intros [].
  - destruct (HUGGINGFACE_API_KEY env) as [[|c key]|]; auto.
    destruct (axios_post _ _) as [[[|c' s]|]|e] eqn:Hcall; auto.
    right. exists (c :: key), (c' :: s).
    repeat split; try discriminate. exact Hcall.
Qed.

Lemma orchestrator_result_witness :
  generateSummaryWithFreeAI asciiLower
    {| HUGGINGFACE_API_KEY := Some (lit "hf_key") |}
    (fun _ _ => Returns (Some (lit "A remote summary.")))
    (lit "We will ship the release on Friday.") None
  = Returns (lit "A remote summary.").
Proof.
  apply (proj1 (proj2 (orchestrator_result asciiLower
           {| HUGGINGFACE_API_KEY := Some (lit "hf_key") |}
           (fun _ _ => Returns (Some (lit "A remote summary.")))
           (lit "We will ship the release on Friday.") None))
           (lit "hf_key") (lit "A remote summary.") eq_refl).
  - discriminate.
  - reflexivity.
  - discriminate.
Defined.

(* ================================================================= *)
(** * The Groq server *)

(** X8.  The Groq server has no local tier: for a transcript that is not
    blank, a rejected call to the service is answered with 500 and the
    error of the call, and nothing is stored. *)
Theorem groq_failure_is_surfaced :
  forall (groq_create : Groq) (uuid : jsstring) (now : N) (db : Db)
         (text : jsstring) (customPrompt : option jsstring) (f : failure),
    jslength (trim text) <> 0 ->
    groq_create (groqUserContent customPrompt text) = Failed f ->
    groq_summarize groq_create uuid now db (Some text) customPrompt
    = ({| code := 500;
          json := JsonError (lit "Failed to generate summary") (Some f) |},
       db).
Proof.
  intros groq_create uuid now db text customPrompt f Htext Hcall.
  destruct text as [|c t]; [exfalso; apply Htext; reflexivity|].
  unfold groq_summarize. apply Nat.eqb_neq in Htext. rewrite Htext, Hcall.
  reflexivity.
Qed.

Lemma groq_failure_is_surfaced_witness :
  groq_summarize (fun _ => Failed (GroqError (lit "503")))
    (lit "b2") 1700000000001 sampleDb
    (Some (lit "We will ship the release on Friday.")) None
  = ({| code := 500;
        json := JsonError (lit "Failed to generate summary")
                  (Some (GroqError (lit "503"))) |}, sampleDb).
Proof.
  apply groq_failure_is_surfaced.
  - vm_compute. discriminate.
  - reflexivity.
Defined.

(** X9.  The summary the Groq server answers with and stores is never
    empty: a completion without a choice, without a message or without
    content gives the placeholder text.  A 200 carries the summary that
    was stored under the id of the answer. *)
Theorem groq_summary_never_empty :
  forall (groq_create : Groq) (uuid : jsstring) (now : N) (db : Db)
         (text customPrompt : option jsstring),
    (forall completion, completionSummary completion <> []) /\
    (forall completion,
        (choices completion = [] \/
         (exists choice rest,
             choices completion = choice :: rest /\
             (message choice = None \/
              message choice = Some {| content := None |} \/
              message choice = Some {| content := Some [] |}))) ->
        completionSummary completion = lit "Unable to generate summary") /\
    (code (fst (groq_summarize groq_create uuid now db text customPrompt))
     = 200 ->
     exists s r,
       s <> [] /\
       json (fst (groq_summarize groq_create uuid now db text customPrompt))
       = JsonSummary uuid s (lit "Summary generated successfully") /\
       documents (snd (groq_summarize groq_create uuid now db text
                         customPrompt))
       = documents db ++ [r] /\
       id r = uuid /\ generatedSummary r = s).
Proof.
  intros groq_create uuid now db text customPrompt.
  split; [apply completionSummary_not_empty|].
  split.
  - intros completion H. unfold completionSummary.
    destruct H as [-> | [choice [rest [-> H]]]]; [reflexivity|].
    destruct H as [-> | [-> | ->]]; reflexivity.
  - intros Hok.
    destruct (groq_summarize_cases groq_create uuid now db text customPrompt)
      as [[t [completion [_ [_ [Hsave Hfst]]]]] | [Hno _]]; [|congruence].
    apply save_Returns in Hsave as [_ [_ [Hs [_ [_ Hdb]]]]].
    exists (completionSummary completion). eexists.
    split; [exact Hs|].
    split; [rewrite Hfst; reflexivity|].
    rewrite Hdb. simpl. auto.
Qed.

Lemma groq_summary_never_empty_witness :
  completionSummary
    {| choices := [ {| message := Some {| content := Some [] |} |} ] |}
  = lit "Unable to generate summary".
Proof.
  apply (proj1 (proj2 (groq_summary_never_empty (fun _ => Failed (GroqError []))
                         [] 0 sampleDb None None))).
  right. eexists. eexists. split; [reflexivity|]. auto.
Defined.

(* ================================================================= *)
(** * Sending the summary by mail *)

Lemma rejections_nil (sendMail : Mail -> option jsstring)
    (mails : list Mail) :
  rejections sendMail mails = [] <->
  forall m, In m mails -> sendMail m = None.
Proof.
  induction mails as [|m mails IH]; simpl.
  - split; [intros _ m [] | reflexivity].
  - destruct (sendMail m) as [message|] eqn:E.
    + split; [discriminate|]. intros H.
      specialize (H m (or_introl eq_refl)). congruence.
    + rewrite IH. split.
      * intros H x [<- | Hx]; auto.
      * intros H x Hx. apply H. right. exact Hx.
Qed.

(** X10.  [POST /api/send-email] refuses a request without recipients (the
    field missing, not an array, or empty) and a request without a summary
    with 400, and hands no mail to the transport; the recipients are
    checked first. *)
Theorem send_email_validation :
  forall (env : MailEnv) (sendMail : Mail -> option jsstring)
         (race : list jsstring -> jsstring)
         (recipientEmails : option (list jsstring))
         (subject summary : option jsstring),
    ((recipientEmails = None \/ recipientEmails = Some []) ->
     send_email env sendMail race recipientEmails subject summary
     = ({| code := 400;
           json := JsonError (lit "Recipient emails are required") None |},
        [])) /\
    (forall first others,
        recipientEmails = Some (first :: others) ->
        (summary = None \/ summary = Some []) ->
        send_email env sendMail race recipientEmails subject summary
        = ({| code := 400;
              json := JsonError (lit "Summary content is required") None |},
           [])) /\
    (code (fst (send_email env sendMail race recipientEmails subject
                  summary)) = 400 ->
     snd (send_email env sendMail race recipientEmails subject summary)
     = []).
Proof.
  intros env sendMail race recipientEmails subject summary.
  split; [intros [-> | ->]; reflexivity|].
  split; [intros first others -> [-> | ->]; reflexivity|].
  unfold send_email.
  destruct recipientEmails as [[|first others]|]; try reflexivity.
  destruct summary as [[|c s]|]; try reflexivity.
  destruct (rejections sendMail _); simpl; discriminate.
Qed.

Lemma send_email_validation_witness :
  send_email {| EMAIL_USER := None; EMAIL_PASS := None |}
    (fun _ => None) (fun _ => []) (Some [lit "a@b.c"]) None (Some [])
  = ({| code := 400;
        json := JsonError (lit "Summary content is required") None |}, []).
Proof.
  apply (proj1 (proj2 (send_email_validation
           {| EMAIL_USER := None; EMAIL_PASS := None |}
           (fun _ => None) (fun _ => []) (Some [lit "a@b.c"]) None (Some [])))
           (lit "a@b.c") [] eq_refl).
  right. reflexivity.
Defined.

Lemma emailContent_Occurs (credit summary : jsstring) :
  Occurs summary (emailContent credit summary).
Proof.
  exists (newline ++ lit "      <h2>Meeting Summary</h2>"
          ++ newline
          ++ lit "      <p>A meeting summary has been shared with you:</p>"
          ++ newline ++ lit "      <hr>"
          ++ newline ++ lit "      <div style=" ++ quote
          ++ lit "white-space: pre-wrap;" ++ quote ++ lit ">").
  exists (lit "</div>" ++ newline ++ lit "      <hr>"
          ++ newline ++ lit "      <p>" ++ credit ++ lit "</p>"
          ++ newline ++ lit "    ").
  reflexivity.
Qed.

(** The mails of a request. *)
Lemma send_email_valid (env : MailEnv) (sendMail : Mail -> option jsstring)
    (race : list jsstring -> jsstring) (first : jsstring)
    (others : list jsstring) (requested : option jsstring)
    (summary : jsstring) :
  summary <> [] ->
  exists mails,
    mails = map (fun email =>
                   {| from := EMAIL_USER env; to := email;
                      subject := orDefault requested
                                   (lit "Meeting Summary Shared with You");
                      html := emailContent freeAiCredit summary |})
              (first :: others) /\
    snd (send_email env sendMail race (Some (first :: others)) requested
           (Some summary)) = mails /\
    fst (send_email env sendMail race (Some (first :: others))
           requested (Some summary))
    = match rejections sendMail mails with
      | [] =>
          {| code := 200;
             json := JsonMessage (lit "Emails sent successfully") |}
      | rejected =>
          {| code := 500;
             json := JsonError (lit "Failed to send email")
                       (Some (MailError (race rejected))) |}
      end.
Proof.
  intros Hsummary. destruct summary as [|c s]; [congruence|].
  eexists. split; [reflexivity|].
  unfold send_email. cbv zeta.
  destruct (rejections sendMail _); split; reflexivity.
Qed.

(** X11.  For a request with recipients and a summary, one mail per
    recipient is handed to the transport, in the order of the request,
    whether or not a send fails: each goes to its recipient, from
    [EMAIL_USER], with the subject of the request (the default subject when
    it is missing or empty) and a body in which the summary occurs as it
    was sent.  The answer is 200 when every send is accepted and 500 as
    soon as one is rejected. *)
Theorem send_email_fan_out :
  forall (env : MailEnv) (sendMail : Mail -> option jsstring)
         (race : list jsstring -> jsstring)
         (first : jsstring) (others : list jsstring)
         (requested : option jsstring) (summary : jsstring),
    summary <> [] ->
    map to (snd (send_email env sendMail race (Some (first :: others))
                   requested (Some summary)))
    = first :: others /\
    (forall m,
        In m (snd (send_email env sendMail race (Some (first :: others))
                     requested (Some summary))) ->
        from m = EMAIL_USER env /\
        subject m
        = orDefault requested (lit "Meeting Summary Shared with You") /\
        Occurs summary (html m)) /\
    (code (fst (send_email env sendMail race (Some (first :: others))
                  requested (Some summary))) = 200 <->
     forall m,
       In m (snd (send_email env sendMail race (Some (first :: others))
                    requested (Some summary))) ->
       sendMail m = None) /\
    (code (fst (send_email env sendMail race (Some (first :: others))
                  requested (Some summary))) = 200 \/
     code (fst (send_email env sendMail race (Some (first :: others))
                  requested (Some summary))) = 500).
Proof.
  intros env sendMail race first others requested summary Hsummary.
  destruct (send_email_valid env sendMail race first others requested
              summary Hsummary) as [mails [Hmails [Hsnd Hfst]]].
  rewrite Hfst, !Hsnd. clear Hsnd Hfst.
  split.
  { rewrite Hmails, map_map. simpl. f_equal. apply map_id. }
  split.
  { intros m Hm. rewrite Hmails in Hm.
    apply in_map_iff in Hm as [email [<- _]].
    simpl. split; [reflexivity|]. split; [reflexivity|].
    apply emailContent_Occurs. }
  rewrite <- rejections_nil.
  destruct (rejections sendMail mails); simpl.
  - split; [tauto | left; reflexivity].
  - split; [split; discriminate | right; reflexivity].
Qed.

Lemma send_email_fan_out_witness :
  map to (snd (send_email {| EMAIL_USER := Some (lit "me@x.y");
                             EMAIL_PASS := None |}
                 (fun m => if streq (to m) (lit "b@x.y")
                           then Some (lit "mailbox full") else None)
                 (fun _ => lit "mailbox full")
                 (Some [lit "a@x.y"; lit "b@x.y"; lit "c@x.y"]) None
                 (Some (lit "Minutes."))))
  = [lit "a@x.y"; lit "b@x.y"; lit "c@x.y"].
Proof.
  apply (send_email_fan_out
           {| EMAIL_USER := Some (lit "me@x.y"); EMAIL_PASS := None |}
           (fun m => if streq (to m) (lit "b@x.y")
                     then Some (lit "mailbox full") else None)
           (fun _ => lit "mailbox full")
           (lit "a@x.y") [lit "b@x.y"; lit "c@x.y"] None (lit "Minutes.")).
  discriminate.
Defined.



(* ================================================================= *)
(** * [trim] applied twice *)

Lemma trimStart_fixed (c : N) (s : jsstring) :
  isSpace c = false -> trimStart (c :: s) = c :: s.
Proof. intros H. simpl. rewrite H. reflexivity. Qed.

Lemma trimStart_head (s : jsstring) :
  match trimStart s with
  | [] => True
  | c :: _ => isSpace c = false
  end.
Proof.
  induction s as [|c s IH]; simpl; [exact I|].
  destruct (isSpace c) eqn:E; [exact IH | exact E].
Qed.

Lemma trimStart_idempotent (s : jsstring) :
  trimStart (trimStart s) = trimStart s.
Proof.
  pose proof (trimStart_head s) as H.
  destruct (trimStart s) as [|c t]; [reflexivity|].
  apply trimStart_fixed, H.
Qed.

Lemma trimStart_snoc (l : jsstring) (c : N) :
  isSpace c = false -> exists l', trimStart (l ++ [c]) = l' ++ [c].
Proof.
  intros Hc. induction l as [|x l IH]; simpl.
  - rewrite Hc. exists []. reflexivity.
  - destruct (isSpace x); [exact IH|]. exists (x :: l). reflexivity.
Qed.

Lemma trimEnd_keeps_head (c : N) (s : jsstring) :
  isSpace c = false -> exists s', trimEnd (c :: s) = c :: s'.
Proof.
  intros Hc. unfold trimEnd. simpl.
  destruct (trimStart_snoc (rev s) c Hc) as [l' ->].
  rewrite rev_app_distr. simpl. eauto.
Qed.

Lemma trimEnd_idempotent (s : jsstring) : trimEnd (trimEnd s) = trimEnd s.
Proof.
  unfold trimEnd. rewrite rev_involutive, trimStart_idempotent. reflexivity.
Qed.

(** Trimming a trimmed string changes nothing. *)
Lemma trim_idempotent (s : jsstring) : trim (trim s) = trim s.
Proof.
  unfold trim.
  pose proof (trimStart_head s) as H.
  destruct (trimStart s) as [|c t]; [reflexivity|].
  destruct (trimEnd_keeps_head c t H) as [s' Hs'].
  rewrite Hs', (trimStart_fixed c s' H), <- Hs'.
  apply trimEnd_idempotent.
Qed.

(* ================================================================= *)
(** * The client *)

Lemma filter_other {A : Type} (f : A -> bool) (l : list A) :
  (forall x, In x l -> f x = true) -> filter f l = l.
Proof.
  induction l as [|x l IH]; simpl; intros H; [reflexivity|].
  rewrite (H x (or_introl eq_refl)), IH; [reflexivity|].
  intros y Hy. apply H. right. exact Hy.
Qed.

Lemma handleGenerateSummary_recipients post st :
  Client.recipientEmails (Client.handleGenerateSummary post st)
  = Client.recipientEmails st.
Proof.
  unfold Client.handleGenerateSummary.
  destruct (isEmpty (trim (Client.text st))); [reflexivity|].
  cbv zeta.
  destruct (post _ _) as [[status data]|]; [|reflexivity].
  destruct (Client.fulfilled status); reflexivity.
Qed.

Lemma handleSaveEdits_recipients put st :
  Client.recipientEmails (Client.handleSaveEdits put st)
  = Client.recipientEmails st.
Proof.
  unfold Client.handleSaveEdits.
  destruct (Client.editedSummary st) as [edited|]; [|reflexivity].
  destruct (isEmpty (trim edited)); [reflexivity|].
  cbv zeta. simpl Client.summary.
  destruct (Client.summary st); [|reflexivity].
  destruct (put _ _) as [[status data]|]; [|reflexivity].
  destruct (Client.fulfilled status); reflexivity.
Qed.

Lemma handleSendEmail_recipients post st :
  Client.recipientEmails (Client.handleSendEmail post st)
  = Client.recipientEmails st \/
  Client.recipientEmails (Client.handleSendEmail post st) = [].
Proof.
  unfold Client.handleSendEmail.
  destruct (List.length (Client.recipientEmails st) =? 0); [left; reflexivity|].
  destruct (Client.editedSummary st) as [edited|]; [|left; reflexivity].
  destruct (isEmpty (trim edited)); [left; reflexivity|].
  cbv zeta.
  destruct (post _ _ _) as [[status data]|]; [|left; reflexivity].
  destruct (Client.fulfilled status); [right | left]; reflexivity.
Qed.

(** X13.  The list of recipients of the page never holds an address
    twice, and every address in it is trimmed and not empty: this holds at
    the start and after every handler, whatever the server answers. *)
Theorem client_recipients_invariant :
  recipientsWellFormed (Client.recipientEmails Client.initial) /\
  forall st,
    recipientsWellFormed (Client.recipientEmails st) ->
    recipientsWellFormed (Client.recipientEmails (Client.handleAddEmail st))
    /\
    (forall email,
        recipientsWellFormed
          (Client.recipientEmails (Client.handleRemoveEmail email st))) /\
    (forall key,
        recipientsWellFormed
          (Client.recipientEmails (Client.handleKeyPress key st))) /\
    (forall post,
        recipientsWellFormed
          (Client.recipientEmails (Client.handleGenerateSummary post st))) /\
    (forall put,
        recipientsWellFormed
          (Client.recipientEmails (Client.handleSaveEdits put st))) /\
    (forall post,
        recipientsWellFormed
          (Client.recipientEmails (Client.handleSendEmail post st))).
Proof.
  assert (Hnil : recipientsWellFormed []) by (split; constructor).
  split; [exact Hnil|].
  intros st [Hnd Hall].
  assert (Hadd : recipientsWellFormed
                   (Client.recipientEmails (Client.handleAddEmail st))).
  { unfold Client.handleAddEmail, Client.listIncludes.
    destruct (isEmpty (trim (Client.emailInput st))) eqn:Eempty; simpl;
      [split; assumption|].
    destruct (existsb (streq (trim (Client.emailInput st)))
                (Client.recipientEmails st)) eqn:Ein; simpl;
      [split; assumption|].
    split.
    - apply NoDup_app; [exact Hnd | repeat constructor; intros [] |].
      intros x Hx [<- | []].
      apply existsb_streq in Hx. congruence.
    - apply Forall_app. split; [exact Hall|].
      constructor; [|constructor].
      split; [apply isEmpty_false; exact Eempty | apply trim_idempotent]. }
  split; [exact Hadd|].
  split.
  { intros email. simpl. split.
    - apply NoDup_filter. exact Hnd.
    - rewrite Forall_forall in Hall |- *. intros x Hx.
      apply filter_In in Hx as [Hx _]. apply Hall, Hx. }
  split.
  { intros key. unfold Client.handleKeyPress.
    destruct (streq key (lit "Enter")); [exact Hadd | split; assumption]. }
  split; [intros post; rewrite handleGenerateSummary_recipients;
          split; assumption|].
  split; [intros put; rewrite handleSaveEdits_recipients;
          split; assumption|].
  intros post.
  destruct (handleSendEmail_recipients post st) as [-> | ->];
    [split; assumption | exact Hnil].
Qed.

Lemma client_recipients_invariant_witness :
  recipientsWellFormed
    (Client.recipientEmails
       (Client.handleAddEmail
          (Client.setEmailInput (lit " a@x.y ") Client.initial))).
Proof.
  apply (proj2 client_recipients_invariant
           (Client.setEmailInput (lit " a@x.y ") Client.initial)).
  apply (proj1 client_recipients_invariant).
Defined.

(** X14.  Adding an address appends the trimmed input and clears the
    input; removing that address again gives back the list as it was.  A
    blank input, or an address that is in the list already, changes
    nothing. *)
Theorem client_add_then_remove :
  forall (st : Client.State),
    (trim (Client.emailInput st) <> [] ->
     ~ In (trim (Client.emailInput st)) (Client.recipientEmails st) ->
     Client.recipientEmails (Client.handleAddEmail st)
     = Client.recipientEmails st ++ [trim (Client.emailInput st)] /\
     Client.emailInput (Client.handleAddEmail st) = [] /\
     Client.recipientEmails
       (Client.handleRemoveEmail (trim (Client.emailInput st))
          (Client.handleAddEmail st))
     = Client.recipientEmails st) /\
    (trim (Client.emailInput st) = [] \/
     In (trim (Client.emailInput st)) (Client.recipientEmails st) ->
     Client.handleAddEmail st = st) /\
    (forall email,
        ~ In email
            (Client.recipientEmails (Client.handleRemoveEmail email st))).
Proof.
  intros st. unfold Client.handleAddEmail, Client.listIncludes.
  split; [|split].
  - intros Hne Hnew.
    apply isEmpty_false in Hne. rewrite Hne.
    destruct (existsb (streq (trim (Client.emailInput st)))
                (Client.recipientEmails st)) eqn:Ein;
      [apply existsb_streq in Ein; contradiction|].
    simpl. split; [reflexivity|]. split; [reflexivity|].
    rewrite filter_app. simpl. rewrite streq_refl. simpl.
    rewrite app_nil_r. apply filter_other.
    intros x Hx. apply negb_true_iff, streq_neq. intros ->. contradiction.
  - intros [Hblank | Hin].
    + rewrite Hblank. reflexivity.
    + apply existsb_streq in Hin. rewrite Hin.
      rewrite andb_false_r. reflexivity.
  - intros email Hin. simpl in Hin. apply filter_In in Hin as [_ Hin].
    rewrite streq_refl in Hin. discriminate.
Qed.

Lemma client_add_then_remove_witness :
  Client.recipientEmails
    (Client.handleRemoveEmail (lit "a@x.y")
       (Client.handleAddEmail
          (Client.setEmailInput (lit " a@x.y ") Client.initial)))
  = [].
Proof.
  apply (proj1 (client_add_then_remove
                  (Client.setEmailInput (lit " a@x.y ") Client.initial))).
  - vm_compute. discriminate.
  - intros [].
Defined.





(** X16.  [handleSaveEdits] asks the server to edit the record with the id
    [undefined], whatever summary is on the page.  Unless a record has that
    id, the server of the repository answers 404 and changes no record, and
    the page shows that the summary was not found. *)
Theorem client_save_edits_misses_record :
  forall (db : Db) (st : Client.State) (shown edited : jsstring),
    Client.summary st = Some shown ->
    Client.editedSummary st = Some edited ->
    isEmpty (trim edited) = false ->
    connected db = true ->
    ~ In (lit "undefined") (map id (documents db)) ->
    Client.handleSaveEdits
      (fun i e => Some (fst (put_summaries db i (Some e)))) st
    = Client.setError (lit "Summary not found")
        (Client.setSuccess [] (Client.setError [] st)) /\
    (forall put,
        Client.handleSaveEdits put st
        = Client.handleSaveEdits
            (fun i e => if streq i (lit "undefined") then put i e else None)
            st) /\
    put_summaries db (lit "undefined") (Some (trim edited))
    = ({| status := 404; body := ErrorBody (lit "Summary not found") None |},
       db).
Proof.
  intros db st shown edited Hshown Hedited Hblank Hconn Hnone.
  assert (Hunknown : existsb (hasId (lit "undefined")) (documents db)
                     = false).
  { destruct (existsb (hasId (lit "undefined")) (documents db)) eqn:E;
      [|reflexivity].
    exfalso. apply Hnone. apply existsb_exists in E as [r [Hr Hid]].
    apply streq_eq in Hid. rewrite <- Hid. apply in_map, Hr. }
  assert (Hput : put_summaries db (lit "undefined") (Some (trim edited))
                 = ({| status := 404;
                       body := ErrorBody (lit "Summary not found") None |},
                    db)).
  { destruct (trim edited) as [|c e] eqn:Etrim; [discriminate|].
    unfold put_summaries, findOneAndUpdate. rewrite Hconn. simpl negb.
    cbv iota.
    rewrite (updateFirst_unknown (lit "undefined") (c :: e) (documents db)
               Hunknown).
    reflexivity. }
  split; [|split; [|exact Hput]].
  - unfold Client.handleSaveEdits. rewrite Hedited, Hblank. cbv zeta.
    simpl Client.summary. rewrite Hshown, Hput. reflexivity.
  - intros put. unfold Client.handleSaveEdits.
    rewrite Hedited, Hblank. cbv zeta. simpl Client.summary.
    rewrite Hshown. reflexivity.
Qed.

Lemma client_save_edits_misses_record_witness :
  Client.error
    (Client.handleSaveEdits
       (fun i e => Some (fst (put_summaries sampleDb i (Some e))))
       (Client.setEditedSummary (Some (lit "Edited."))
          (Client.setSummary (Some (lit "Summary: ")) Client.initial)))
  = lit "Summary not found".
Proof.
  rewrite (proj1 (client_save_edits_misses_record sampleDb
             (Client.setEditedSummary (Some (lit "Edited."))
                (Client.setSummary (Some (lit "Summary: ")) Client.initial))
             (lit "Summary: ") (lit "Edited.") eq_refl eq_refl eq_refl
             eq_refl ltac:(vm_compute; intros [H | []]; discriminate))).
  reflexivity.
Defined.

(** X17.  [handleSendEmail] refuses an empty list of recipients and a
    blank summary on the page.  Otherwise the request passes the checks of
    the server: one mail per recipient of the page is handed to the
    transport.  When every send is accepted the list of recipients is
    emptied and the subject reset; when one is rejected the page shows the
    error of the server and keeps the whole list, the recipients already
    served included. *)
Theorem client_send_email :
  forall (env : MailEnv) (sendMail : Mail -> option jsstring)
         (race : list jsstring -> jsstring) (st : Client.State)
         (edited : jsstring),
    Client.recipientEmails st <> [] ->
    Client.editedSummary st = Some edited ->
    isEmpty (trim edited) = false ->
    map to (snd (send_email env sendMail race
                   (Some (Client.recipientEmails st))
                   (Some (Client.emailSubject st)) (Some (trim edited))))
    = Client.recipientEmails st /\
    ((forall m,
         In m (snd (send_email env sendMail race
                      (Some (Client.recipientEmails st))
                      (Some (Client.emailSubject st))
                      (Some (trim edited)))) ->
         sendMail m = None) ->
     Client.recipientEmails
       (Client.handleSendEmail
          (fun r subj s => Some (fst (send_email env sendMail race (Some r)
                                        (Some subj) (Some s)))) st) = [] /\
     Client.emailSubject
       (Client.handleSendEmail
          (fun r subj s => Some (fst (send_email env sendMail race (Some r)
                                        (Some subj) (Some s)))) st)
     = lit "Meeting Summary Shared with You" /\
     Client.success
       (Client.handleSendEmail
          (fun r subj s => Some (fst (send_email env sendMail race (Some r)
                                        (Some subj) (Some s)))) st)
     = lit "Emails sent successfully!") /\
    ((exists m,
         In m (snd (send_email env sendMail race
                      (Some (Client.recipientEmails st))
                      (Some (Client.emailSubject st))
                      (Some (trim edited)))) /\
         sendMail m <> None) ->
     Client.recipientEmails
       (Client.handleSendEmail
          (fun r subj s => Some (fst (send_email env sendMail race (Some r)
                                        (Some subj) (Some s)))) st)
     = Client.recipientEmails st /\
     Client.error
       (Client.handleSendEmail
          (fun r subj s => Some (fst (send_email env sendMail race (Some r)
                                        (Some subj) (Some s)))) st)
     = lit "Failed to send email").
Proof.
  intros env sendMail race st edited Hrecipients Hedited Hblank.
  destruct (Client.recipientEmails st) as [|first others] eqn:Erec;
    [congruence|].
  assert (Hsummary : trim edited <> []) by (apply isEmpty_false; exact Hblank).
  destruct (send_email_valid env sendMail race first others
              (Some (Client.emailSubject st)) (trim edited) Hsummary)
    as [mails [Hmails [Hsnd Hfst]]].
  rewrite !Hsnd.
  split; [rewrite Hmails, map_map; simpl; f_equal; apply map_id|].
  unfold Client.handleSendEmail. rewrite Erec, Hedited, Hblank.
  cbv beta zeta.
  cbn [List.length Nat.eqb Client.recipientEmails Client.emailSubject
       Client.setSuccess Client.setError].
  rewrite Erec, Hfst.
  split.
  - intros Hall. apply rejections_nil in Hall. rewrite Hall.
    repeat split; reflexivity.
  - intros [m [Hm Hrej]].
    destruct (rejections sendMail mails) as [|msg rest] eqn:Erej.
    + exfalso. apply Hrej.
      apply (proj1 (rejections_nil sendMail mails) Erej). exact Hm.
    + split; [exact Erec | reflexivity].
Qed.

Lemma client_send_email_witness :
  map to (snd (send_email {| EMAIL_USER := None; EMAIL_PASS := None |}
                 (fun _ => None) (fun _ => [])
                 (Some [lit "a@x.y"])
                 (Some (lit "Meeting Summary Shared with You"))
                 (Some (lit "Minutes."))))
  = [lit "a@x.y"].
Proof.
  apply (client_send_email {| EMAIL_USER := None; EMAIL_PASS := None |}
           (fun _ => None) (fun _ => [])
           (Client.setEditedSummary (Some (lit " Minutes. "))
              (Client.setRecipientEmails [lit "a@x.y"] Client.initial))
           (lit " Minutes. ")).
  - discriminate.
  - reflexivity.
  - reflexivity.
Defined.

(* ================================================================= *)
(** * What the local summary is made of *)

Lemma splitRuns_free (C : N -> bool) (inRun : bool) (s : jsstring) :
  Forall (fun p => forallb (fun c => negb (C c)) p = true)
    (splitRuns C inRun s).
Proof.
  revert inRun. induction s as [|c s IH]; intros inRun; simpl.
  - repeat constructor.
  - destruct (C c) eqn:Ec.
    + destruct inRun; [apply IH|]. constructor; [reflexivity | apply IH].
    + specialize (IH false).
      destruct (splitRuns C false s) as [|piece rest].
      * repeat constructor. simpl. rewrite Ec. reflexivity.
      * inversion IH; subst. constructor; [|assumption].
        simpl. rewrite Ec. assumption.
Qed.

Lemma trimStart_suffix (s : jsstring) : exists pre, s = pre ++ trimStart s.
Proof.
  induction s as [|c s [pre IH]]; simpl.
  - exists []. reflexivity.
  - destruct (isSpace c).
    + exists (c :: pre). simpl. rewrite <- IH. reflexivity.
    + exists []. reflexivity.
Qed.

Lemma trimEnd_prefix (s : jsstring) : exists post, s = trimEnd s ++ post.
Proof.
  unfold trimEnd. destruct (trimStart_suffix (rev s)) as [pre H].
  exists (rev pre).
  rewrite <- rev_app_distr, <- H, rev_involutive. reflexivity.
Qed.

(** The trimmed string is a piece of the string. *)
Lemma trim_Occurs (s : jsstring) : Occurs (trim s) s.
Proof.
  unfold trim. destruct (trimStart_suffix s) as [pre Hpre].
  destruct (trimEnd_prefix (trimStart s)) as [post Hpost].
  exists pre, post. rewrite <- Hpost. exact Hpre.
Qed.

Lemma Occurs_In (k s : jsstring) (c : N) : Occurs k s -> In c k -> In c s.
Proof.
  intros [pre [post ->]] Hc. apply in_or_app. right.
  apply in_or_app. left. exact Hc.
Qed.

Lemma Occurs_trans (a b c : jsstring) : Occurs a b -> Occurs b c -> Occurs a c.
Proof.
  intros [pre [post ->]] [pre' [post' ->]].
  exists (pre' ++ pre), (post ++ post').
  rewrite <- !app_assoc. reflexivity.
Qed.

Lemma Occurs_cons (k s : jsstring) (c : N) : Occurs k s -> Occurs k (c :: s).
Proof. intros [pre [post ->]]. exists (c :: pre), post. reflexivity. Qed.

(** Every piece of a split occurs in the string, and the first piece
    starts it. *)
Lemma splitRuns_Occurs (C : N -> bool) (s : jsstring) :
  (forall inRun, Forall (fun p => Occurs p s) (splitRuns C inRun s)) /\
  exists p rest post, splitRuns C false s = p :: rest /\ s = p ++ post.
Proof.
  induction s as [|c s [IHall [p [rest [post [IHsplit IHeq]]]]]].
  - split.
    + intros inRun. simpl. repeat constructor. exists [], []. reflexivity.
    + exists [], [], []. auto.
  - assert (Hlift : forall inRun,
              Forall (fun p => Occurs p (c :: s)) (splitRuns C inRun s)).
    { intros inRun. eapply Forall_impl; [|apply IHall].
      intros a Ha. apply Occurs_cons, Ha. }
    simpl. destruct (C c).
    + split.
      * intros [|]; [apply Hlift|].
        constructor; [exists [], (c :: s); reflexivity | apply Hlift].
      * exists [], (splitRuns C true s), (c :: s). auto.
    + rewrite IHsplit. split.
      * intros _. specialize (Hlift false). rewrite IHsplit in Hlift.
        inversion Hlift as [|? ? _ Hrest]. constructor; [|exact Hrest].
        exists [], post. rewrite IHeq. reflexivity.
      * exists (c :: p), rest, post. rewrite IHeq. auto.
Qed.

Lemma sentence_Occurs (text s : jsstring) :
  In s (sentences text) -> Occurs s text.
Proof.
  unfold sentences, split. intros H. apply filter_In in H as [H _].
  pose proof (proj1 (splitRuns_Occurs isTerminator text) false) as HF.
  rewrite Forall_forall in HF. apply HF, H.
Qed.

Lemma sentence_noTerminator (text s : jsstring) :
  In s (sentences text) -> noTerminator s = true.
Proof.
  unfold sentences, split. intros H. apply filter_In in H as [H _].
  pose proof (splitRuns_free isTerminator false text) as HF.
  rewrite Forall_forall in HF. apply HF, H.
Qed.

Lemma noTerminator_app (a b : jsstring) :
  noTerminator (a ++ b) = (noTerminator a && noTerminator b)%bool.
Proof. apply forallb_app. Qed.

Lemma noTerminator_Occurs (k s : jsstring) :
  Occurs k s -> noTerminator s = true -> noTerminator k = true.
Proof.
  intros Hk Hs. unfold noTerminator in *. rewrite forallb_forall in Hs |- *.
  intros c Hc. apply Hs. exact (Occurs_In k s c Hk Hc).
Qed.

Lemma noTerminator_join (sep : jsstring) (parts : list jsstring) :
  noTerminator sep = true ->
  (forall p, In p parts -> noTerminator p = true) ->
  noTerminator (join sep parts) = true.
Proof.
  intros Hsep. induction parts as [|p parts IH]; intros Hparts;
    [reflexivity|].
  destruct parts as [|q parts].
  - apply Hparts. left. reflexivity.
  - change (join sep (p :: q :: parts))
      with (p ++ sep ++ join sep (q :: parts)).
    rewrite !noTerminator_app, Hsep, (Hparts p (or_introl eq_refl)), IH;
      [reflexivity|].
    intros x Hx. apply Hparts. right. exact Hx.
Qed.

Lemma noTerminator_bullets (text : jsstring) (l : list jsstring) :
  (forall s, In s l -> In s (sentences text)) ->
  noTerminator (join newline (map bulletLine l)) = true.
Proof.
  intros Hl. apply noTerminator_join; [reflexivity|].
  intros p Hp. apply in_map_iff in Hp as [s [<- Hs]].
  unfold bulletLine. rewrite noTerminator_app. simpl.
  apply (noTerminator_Occurs (trim s) s (trim_Occurs s)).
  apply (sentence_noTerminator text), Hl, Hs.
Qed.

Lemma noTerminator_sentences (text : jsstring) (l : list jsstring) :
  (forall s, In s l -> In s (sentences text)) ->
  noTerminator (join space l) = true.
Proof.
  intros Hl. apply noTerminator_join; [reflexivity|].
  intros p Hp. apply (sentence_noTerminator text), Hl, Hp.
Qed.

(** X18.  The local summary has no full stop, exclamation mark or question
    mark in it, whatever the transcript and the prompt: the sentences are
    the pieces between these marks, and nothing puts a mark back. *)
Theorem local_summary_has_no_terminator :
  forall (toLowerCase : jsstring -> jsstring) (text : jsstring)
         (customPrompt : option jsstring) (c : N),
    In c (generateSimpleSummary toLowerCase text customPrompt) ->
    c <> 46%N /\ c <> 33%N /\ c <> 63%N.
Proof.
  intros toLowerCase text customPrompt c Hc.
  assert (Hout : noTerminator
                   (generateSimpleSummary toLowerCase text customPrompt)
                 = true).
  { unfold generateSimpleSummary.
    assert (Hsum : noTerminator (summary toLowerCase text customPrompt)
                   = true).
    { unfold summary.
      destruct (promptIncludes toLowerCase customPrompt (lit "bullet")).
      - apply (noTerminator_bullets text), keySentence_is_sentence.
      - destruct (promptIncludes toLowerCase customPrompt (lit "action")).
        + apply (noTerminator_bullets text), actionSentence_is_sentence.
        + apply (noTerminator_sentences text), keySentence_is_sentence. }
    destruct (isEmpty (summary toLowerCase text customPrompt));
      [|exact Hsum].
    rewrite noTerminator_app. simpl.
    apply (noTerminator_sentences text). intros s Hs.
    exact (Subseq_In _ _ s (Subseq_firstn 3 (sentences text)) Hs). }
  unfold noTerminator in Hout. rewrite forallb_forall in Hout.
  specialize (Hout c Hc). apply negb_true_iff in Hout.
  unfold isTerminator in Hout.
  apply orb_false_iff in Hout as [Hout H63].
  apply orb_false_iff in Hout as [H46 H33].
  apply N.eqb_neq in H46, H33, H63. auto.
Qed.

Lemma local_summary_has_no_terminator_witness :
  32%N <> 46%N /\ 32%N <> 33%N /\ 32%N <> 63%N.
Proof.
  apply (local_summary_has_no_terminator asciiLower (lit "Hi. Ok. Go.") None
           32%N).
  vm_compute. tauto.
Defined.

(** X19.  The local pipeline is extractive: every sentence, and so every
    sentence of the keyword-based and of the action selection, occurs in
    the transcript as it stands, and so does its trimmed form, the one a
    bullet line shows. *)
Theorem selected_sentences_occur_in_transcript :
  forall (toLowerCase : jsstring -> jsstring) (text s : jsstring),
    In s (sentences text) \/
    In s (keySentences toLowerCase text) \/
    In s (actionSentences toLowerCase text) ->
    Occurs s text /\ Occurs (trim s) text /\ noTerminator s = true.
Proof.
  intros toLowerCase text s H.
  assert (Hs : In s (sentences text)).
  { destruct H as [H | [H | H]]; [exact H | |].
    - apply (keySentence_is_sentence toLowerCase), H.
    - apply (actionSentence_is_sentence toLowerCase), H. }
  split; [apply sentence_Occurs, Hs|].
  split; [|apply (sentence_noTerminator text), Hs].
  apply (Occurs_trans _ s); [apply trim_Occurs | apply sentence_Occurs, Hs].
Qed.

Lemma selected_sentences_occur_in_transcript_witness :
  Occurs (lit " We will finish the report") scenarioTranscript.
Proof.
  apply (selected_sentences_occur_in_transcript asciiLower
           scenarioTranscript (lit " We will finish the report")).
  left. vm_compute. tauto.
Defined.

(* ================================================================= *)
(** * The keywords of any transcript *)

Lemma putOwn_keys (o : jsobject) (k : jsstring) (v : jsval) :
  map fst (putOwn o k v)
  = if existsb (streq k) (map fst o) then map fst o else map fst o ++ [k].
Proof.
  induction o as [|[k' v'] o IH]; simpl; [reflexivity|].
  rewrite (streq_sym k k').
  destruct (streq k' k); simpl; [reflexivity|].
  rewrite IH. destruct (existsb (streq k) (map fst o)); reflexivity.
Qed.

Lemma countClean_keys (o : jsobject) (w : jsstring) :
  NoDup (map fst o) ->
  NoDup (map fst (countClean o w)) /\
  forall k, In k (map fst (countClean o w)) -> In k (map fst o) \/ k = w.
Proof.
  intros Hnd. unfold countClean, Put.
  destruct (streq w (lit "__proto__")); [auto|].
  rewrite putOwn_keys.
  destruct (existsb (streq w) (map fst o)) eqn:E; [auto|].
  split.
  - apply NoDup_app; [exact Hnd | repeat constructor; intros [] |].
    intros x Hx [<- | []]. apply existsb_streq in Hx. congruence.
  - intros k Hk. apply in_app_or in Hk as [Hk | [<- | []]]; auto.
Qed.

Lemma fold_countClean_keys (l : list jsstring) (o : jsobject) :
  NoDup (map fst o) ->
  NoDup (map fst (fold_left countClean l o)) /\
  forall k, In k (map fst (fold_left countClean l o)) ->
            In k (map fst o) \/ In k l.
Proof.
  revert o. induction l as [|w l IH]; intros o Hnd; simpl; [auto|].
  destruct (countClean_keys o w Hnd) as [Hnd' Hkeys].
  destruct (IH (countClean o w) Hnd') as [Hnd'' Hkeys'].
  split; [exact Hnd''|].
  intros k Hk. destruct (Hkeys' k Hk) as [H | H]; [|auto].
  destruct (Hkeys k H) as [H' | ->]; auto.
Qed.

Lemma NoDup_firstn {A : Type} (n : nat) (l : list A) :
  NoDup l -> NoDup (firstn n l).
Proof.
  revert n. induction l as [|x l IH]; intros [|n] Hnd; simpl;
    try constructor.
  - inversion Hnd as [|? ? Hx Hl]; subst. intros Hin. apply Hx.
    exact (Subseq_In _ _ x (Subseq_firstn n l) Hin).
  - inversion Hnd; subst. apply IH. assumption.
Qed.

(** X20.  For every transcript the keywords are at most 10 different
    words, each of them a cleaned word of the transcript: a word of the
    lower-cased text with the non-word characters stripped, made of word
    characters only and more than 3 code units long. *)
Theorem keywords_are_clean_words :
  forall (toLowerCase : jsstring -> jsstring) (text : jsstring),
    List.length (keywords toLowerCase text) <= 10 /\
    NoDup (keywords toLowerCase text) /\
    (forall k,
        In k (keywords toLowerCase text) ->
        In k (cleanWords toLowerCase text) /\
        (exists word, In word (words toLowerCase text) /\
                      k = stripNonWord word) /\
        3 < jslength k /\
        forallb isWordChar k = true).
Proof.
  intros toLowerCase text.
  set (comparefn := fun x y : jsstring * jsval => minus (snd y) (snd x)).
  assert (Hperm : Permutation
                    (map fst (Array_sort comparefn
                                (Object_entries (wordCount toLowerCase text))))
                    (map fst (wordCount toLowerCase text))).
  { apply Permutation_map. rewrite Array_sort_Permutation.
    apply Object_entries_Permutation. }
  destruct (fold_countClean_keys (cleanWords toLowerCase text) []
              (NoDup_nil _)) as [Hnd Hkeys].
  assert (Htable : wordCount toLowerCase text
                   = fold_left countClean (cleanWords toLowerCase text) [])
    by apply fold_countWord.
  rewrite <- Htable in Hnd, Hkeys.
  assert (Hkw : keywords toLowerCase text
                = firstn 10
                    (map fst (Array_sort comparefn
                                (Object_entries
                                   (wordCount toLowerCase text)))))
    by (symmetry; apply firstn_map).
  split; [rewrite Hkw; apply firstn_le_length|].
  split.
  { rewrite Hkw. apply NoDup_firstn.
    eapply Permutation_NoDup; [symmetry; exact Hperm | exact Hnd]. }
  intros k Hk. rewrite Hkw in Hk.
  apply (Subseq_In _ _ k (Subseq_firstn 10 _)) in Hk.
  apply (Permutation_in _ Hperm) in Hk.
  destruct (Hkeys k Hk) as [[] | Hclean].
  split; [exact Hclean|].
  unfold cleanWords in Hclean. apply filter_In in Hclean as [Hin Hlong].
  apply in_map_iff in Hin as [word [<- Hword]].
  split; [exists word; auto|].
  split; [apply Nat.ltb_lt; exact Hlong|].
  unfold stripNonWord. apply forallb_forall. intros c Hc.
  apply filter_In in Hc. tauto.
Qed.

Lemma keywords_are_clean_words_witness :
  In (lit "alpha") (cleanWords asciiLower (lit "Alpha, 2024!")).
Proof.
  apply (proj2 (proj2 (keywords_are_clean_words asciiLower
                         (lit "Alpha, 2024!")))).
  vm_compute. tauto.
Defined.
